(** * Calculator MCP server: the nine arithmetic tools of
    [calculator_server.py], over the IEEE binary64 floats that the tools'
    [float] parameters carry.

    A Python [float] is an IEEE 754 binary64 value.  It is represented here by
    [spec_float] of the Standard Library at precision 53 and maximal exponent
    1024 (the specification of Rocq's own primitive floats, without NaN
    payloads); every operation is the correctly rounded (round to nearest,
    ties to even) operation of [SpecFloat].  Literals are written as primitive
    floats and read through [Prim2SF]. *)

From Stdlib Require Import ZArith QArith Qabs Qminmax Bool String Lia.
From Stdlib Require Import Floats.
From Stdlib Require Reals Psatz.

Set Warnings "-inexact-float,-unused-intro-pattern".
Open Scope Z_scope.

Module Calculator.

Definition pyfloat := spec_float.

(** A float literal of the source, read as a [spec_float]. *)
Definition lit (f : PrimFloat.float) : pyfloat := Prim2SF f.

Definition fzero : pyfloat := S754_zero false.
Definition fone : pyfloat := Eval vm_compute in Prim2SF 1%float.
Definition fhundred : pyfloat := Eval vm_compute in Prim2SF 100%float.

(** ** Python-level primitives *)

(** Python exceptions raised by the tools, with their messages. *)
Inductive exn :=
| ValueError (msg : string)
| OverflowError (msg : string)
| ZeroDivisionError (msg : string).

(** The outcome of a call: a returned float or a raised exception. *)
Inductive outcome :=
| Ok (v : pyfloat)
| Raise (e : exn).

(** Numeric comparisons [==], [<] on floats (an [int] operand such as the
    literal [0] is compared exactly, as a float of the same value). *)
Definition py_eq (x y : pyfloat) : bool := SFeqb x y.
Definition py_lt (x y : pyfloat) : bool := SFltb x y.

(** [x] is a binary64 value: a finite float has a canonical mantissa and an
    exponent in range (every float Python holds is one). *)
Definition sf_valid (x : pyfloat) : bool := SpecFloat.valid_binary prec emax x.

Definition sf_is_nan (x : pyfloat) : bool :=
  match x with S754_nan => true | _ => false end.

Definition sf_is_finite (x : pyfloat) : bool :=
  match x with S754_zero _ | S754_finite _ _ _ => true | _ => false end.

(** The sign bit (C's [signbit]); a NaN carries none here. *)
Definition sf_sign (x : pyfloat) : bool :=
  match x with
  | S754_zero s | S754_infinity s | S754_finite s _ _ => s
  | S754_nan => false
  end.

(** C's [copysign(0.0, y)]. *)
Definition copysign_zero (y : pyfloat) : pyfloat := S754_zero (sf_sign y).

(** [a / b] on floats: [float_div] raises [ZeroDivisionError] on a zero
    divisor, otherwise divides with IEEE rounding. *)
Definition py_truediv (a b : pyfloat) : outcome :=
  if py_eq b fzero then Raise (ZeroDivisionError "float division by zero")
  else Ok (SF64div a b).

(** C's [fmod]: the exact remainder [x - n*y] with [n] the quotient of
    [x / y] truncated towards zero; it has the sign of [x]. *)
Definition c_fmod (x y : pyfloat) : pyfloat :=
  match x, y with
  | S754_nan, _ | _, S754_nan => S754_nan
  | S754_infinity _, _ => S754_nan
  | _, S754_zero _ => S754_nan
  | S754_zero _, _ => x
  | S754_finite _ _ _, S754_infinity _ => x
  | S754_finite sx mx ex, S754_finite _ my ey =>
      let ez := Z.min ex ey in
      let r := Z.rem (Zpos (fst (shl_align mx ex ez))) (Zpos (fst (shl_align my ey ez))) in
      binary_normalize prec emax (cond_Zopp sx r) ez sx
  end.

(** [a % b] on floats ([float_rem] of CPython): the remainder of [fmod] is
    moved to the sign of the divisor. *)
Definition py_mod (vx wx : pyfloat) : outcome :=
  if py_eq wx fzero then Raise (ZeroDivisionError "float modulo")
  else
    let m := c_fmod vx wx in
    if negb (py_eq m fzero) then
      if xorb (py_lt wx fzero) (py_lt m fzero) then Ok (SF64add m wx) else Ok m
    else Ok (copysign_zero wx).

(** ** Integer tests on floats, used by [math.pow] *)

(** [y] is a finite float with an integral value. *)
Definition sf_is_integer (y : pyfloat) : bool :=
  match y with
  | S754_zero _ => true
  | S754_finite _ m e => (0 <=? e) || (Z.pos m mod 2 ^ (- e) =? 0)
  | _ => false
  end.

(** [y] is a finite float whose value is an odd integer. *)
Definition sf_is_odd_integer (y : pyfloat) : bool :=
  match y with
  | S754_finite _ m e =>
      if 0 <? e then false
      else sf_is_integer y && Z.odd (Z.shiftr (Z.pos m) (- e))
  | _ => false
  end.

(** The value of [y] as a natural number, when [y] is a non-negative
    integer. *)
Definition sf_nonneg_integer (y : pyfloat) : option Z :=
  match y with
  | S754_zero _ => Some 0
  | S754_finite false m e =>
      if sf_is_integer y then Some (Z.shiftr (Z.pos m) (- e)) else None
  | _ => None
  end.

(** [x ^ n] for a finite [x] and [n >= 0], when that power is exactly a
    float. *)
Definition pow_nat_exact (x : pyfloat) (n : Z) : option pyfloat :=
  if n =? 0 then (if sf_is_finite x then Some fone else None)
  else
    match x with
    | S754_zero s => Some (S754_zero (s && Z.odd n))
    | S754_finite s m e =>
        let M := Z.pos m ^ n in
        let E := e * n in
        let sg := s && Z.odd n in
        match binary_normalize prec emax (cond_Zopp sg M) E false with
        | S754_finite s' m' e' =>
            let k := Z.min e' E in
            if Bool.eqb s' sg && (Z.shiftl (Z.pos m') (e' - k) =? Z.shiftl M (E - k))
            then Some (S754_finite s' m' e') else None
        | _ => None
        end
    | _ => None
    end.

(** ** [math.sqrt] ([math_1] of CPython with [can_overflow = 0]) *)

Definition math_sqrt (x : pyfloat) : outcome :=
  let r := SF64sqrt x in
  if sf_is_nan r && negb (sf_is_nan x) then Raise (ValueError "math domain error")
  else if negb (sf_is_finite r) && negb (sf_is_nan r) && sf_is_finite x
  then Raise (ValueError "math domain error")
  else Ok r.

(** ** [math.pow]

    CPython's [math_pow] handles non-finite arguments itself and leaves
    finite ones to the C library's [pow], which is a parameter here. *)

Section MathPow.

Variable c_pow : pyfloat -> pyfloat -> pyfloat.

Definition math_pow (x y : pyfloat) : outcome :=
  if negb (sf_is_finite x && sf_is_finite y) then
    Ok (match x, y with
        | S754_nan, _ => if py_eq y fzero then fone else x
        | _, S754_nan => if py_eq x fone then fone else y
        | S754_infinity sx, _ =>
            let odd_y := sf_is_finite y && sf_is_odd_integer y in
            if py_lt fzero y then (if odd_y then x else S754_infinity false)
            else if py_eq y fzero then fone
            else if odd_y then S754_zero sx else fzero
        | _, S754_infinity _ =>
            if py_eq (SFabs x) fone then fone
            else if py_lt fzero y && py_lt fone (SFabs x) then y
            else if py_lt y fzero && py_lt (SFabs x) fone then SFopp y
            else fzero
        | _, _ => fzero
        end)
  else
    match c_pow x y with
    | S754_nan => Raise (ValueError "math domain error")
    | S754_infinity _ =>
        if py_eq x fzero then Raise (ValueError "math domain error")
        else Raise (OverflowError "math range error")
    | r => Ok r
    end.

(** ** The tools *)

Definition add (a b : pyfloat) : pyfloat := SF64add a b.

Definition subtract (a b : pyfloat) : pyfloat := SF64sub a b.

Definition multiply (a b : pyfloat) : pyfloat := SF64mul a b.

Definition divide (a b : pyfloat) : outcome :=
  if py_eq b fzero then Raise (ValueError "Cannot divide by zero")
  else py_truediv a b.

Definition power (base exponent : pyfloat) : outcome := math_pow base exponent.

Definition modulo (a b : pyfloat) : outcome :=
  if py_eq b fzero then Raise (ValueError "Cannot perform modulo with zero divisor")
  else py_mod a b.

Definition square_root (number : pyfloat) : outcome :=
  if py_lt number fzero
  then Raise (ValueError "Cannot calculate square root of a negative number")
  else math_sqrt number.

Definition absolute (number : pyfloat) : pyfloat := SFabs number.

Definition percentage (value percent : pyfloat) : outcome :=
  py_truediv (SF64mul value percent) fhundred.

End MathPow.

(** ** Closeness of two floats

    [within_tol rel abs x y]: [x] and [y] are the same non-NaN float, or both
    are finite and differ by at most [rel] times the larger magnitude plus
    [abs] (the test of Python's [math.isclose], on exact values). *)

Definition sf_val (x : pyfloat) : Q :=
  match x with
  | S754_finite s m e => (if s then -1 else 1) * (inject_Z (Z.pos m) * Qpower (2 # 1) e)
  | _ => 0
  end.

Definition within_tol (rel abs : Q) (x y : pyfloat) : Prop :=
  (x = y /\ sf_is_nan x = false) \/
  (sf_is_finite x = true /\ sf_is_finite y = true /\
   (Qabs (sf_val x - sf_val y) <= rel * Qmax (Qabs (sf_val x)) (Qabs (sf_val y)) + abs)%Q).

(** Python's [>=] on floats. *)
Definition py_ge (x y : pyfloat) : bool := SFleb y x.

(** ** The C library's [pow]

    What C99 Annex F (IEC 60559) fixes of [pow] on finite arguments, and the
    accuracy of the usual libraries (glibc's [pow] errs by less than one unit
    in the last place, so an exactly representable power is returned
    exactly). *)
Record libm_pow (c_pow : pyfloat -> pyfloat -> pyfloat) : Prop := {
  pow_neg_nonint : forall x y,
    sf_is_finite x = true -> py_lt x fzero = true ->
    sf_is_finite y = true -> sf_is_integer y = false -> c_pow x y = S754_nan;
  pow_zero_neg : forall s y,
    sf_is_finite y = true -> py_lt y fzero = true ->
    c_pow (S754_zero s) y = S754_infinity (s && sf_is_odd_integer y);
  pow_exact : forall x y n r,
    sf_is_finite x = true -> sf_nonneg_integer y = Some n ->
    pow_nat_exact x n = Some r -> c_pow x y = r
}.

(** A [pow] meeting [libm_pow]; it shows the requirements consistent (its
    values elsewhere are arbitrary). *)
Definition pow_model (x y : pyfloat) : pyfloat :=
  match sf_nonneg_integer y with
  | Some n => match pow_nat_exact x n with Some r => r | None => S754_nan end
  | None =>
      match x with
      | S754_zero s =>
          if sf_is_finite y && py_lt y fzero
          then S754_infinity (s && sf_is_odd_integer y) else S754_nan
      | _ => S754_nan
      end
  end.

End Calculator.

(** ** Real values of floats

    The error of a rounded operation is measured on real numbers: [sf_real]
    is the real number a finite float stands for, and [inbetween] records,
    the way [SpecFloat]'s rounding does with its [location], where a
    non-negative real lies with respect to the grid of multiples of [2 ^ e]. *)

Module RealValue.
Import Calculator.
Import Stdlib.Reals.Reals.
Local Open Scope R_scope.

Definition bpow (e : Z) : R := powerRZ 2 e.

Definition sgn (s : bool) : R := if s then -1 else 1.

(** The real number a finite float stands for; the others are sent to 0. *)
Definition sf_real (x : pyfloat) : R :=
  match x with
  | S754_finite s m e => sgn s * IZR (Z.pos m) * bpow e
  | _ => 0
  end.

(** [x] is [m * 2^e] ([loc_Exact]), or lies strictly between [m * 2^e] and
    [(m + 1) * 2^e], below ([Lt]), at ([Eq]) or above ([Gt]) the midpoint. *)
Definition inbetween (x : R) (m e : Z) (l : location) : Prop :=
  match l with
  | loc_Exact => x = IZR m * bpow e
  | loc_Inexact Lt => IZR m * bpow e < x < (IZR m + / 2) * bpow e
  | loc_Inexact Eq => x = (IZR m + / 2) * bpow e
  | loc_Inexact Gt => (IZR m + / 2) * bpow e < x < (IZR m + 1) * bpow e
  end.

(** A finite float's exponent is at least binary64's least one, [-1074]. *)
Definition exp_in_range (x : pyfloat) : Prop :=
  match x with
  | S754_finite _ _ e => (-1074 <= e)%Z
  | _ => True
  end.

End RealValue.


(** * Properties *)

(** ** Rounding in [SpecFloat]: signs and exact cases *)

Module RoundingFacts.
Import Calculator.

(** [SpecFloat] computes with the [Z] operations of [Corelib]'s [IntDef];
    this states them as the [Stdlib]'s, which [lia] reads. *)
Ltac intdef_to_z :=
  repeat first
    [ change (IntDef.Z.max ?a ?b) with (Z.max a b) in *
    | change (IntDef.Z.min ?a ?b) with (Z.min a b) in * ].

Ltac intdef_to_z_tests :=
  repeat first
    [ change (IntDef.Z.eqb ?a ?b) with (Z.eqb a b) in *
    | change (IntDef.Z.even ?a) with (Z.even a) in *
    | change (IntDef.Z.compare ?a ?b) with (Z.compare a b) in *
    | change (IntDef.Z.leb ?a ?b) with (Z.leb a b) in *
    | change (IntDef.Z.mul ?a ?b) with (Z.mul a b) in *
    | change (IntDef.Z.add ?a ?b) with (Z.add a b) in *
    | change (IntDef.Z.div2 ?a) with (Z.div2 a) in *
    | change (IntDef.Z.sqrtrem ?a) with (Z.sqrtrem a) in * ].

Ltac fexp_lia :=
  unfold fexp, SpecFloat.emin in *; change prec with 53 in *; change emax with 1024 in *;
  intdef_to_z; lia.

Lemma iter_xO_mul (m d : positive) :
  Z.pos (Pos.iter xO m d) = Z.pos m * 2 ^ Z.pos d.
Proof.
  induction d using Pos.peano_ind.
  - simpl. lia.
  - rewrite Pos.iter_succ, Pos2Z.inj_succ, Z.pow_succ_r by lia.
    change (Z.pos (xO (Pos.iter xO m d))) with (2 * Z.pos (Pos.iter xO m d)).
    rewrite IHd. ring.
Qed.

Lemma digits2_pos_size (p : positive) : digits2_pos p = Pos.size p.
Proof. induction p; simpl; congruence. Qed.

Lemma digits2_bounds (p : positive) :
  2 ^ (Z.pos (digits2_pos p) - 1) <= Z.pos p < 2 ^ Z.pos (digits2_pos p).
Proof.
  rewrite digits2_pos_size. split.
  - assert (H := Pos.size_le p). apply Pos2Z.pos_le_pos in H.
    rewrite Pos2Z.inj_pow in H.
    replace (Z.pos p~0) with (2 * Z.pos p) in H by lia.
    assert (E : 2 ^ Z.pos (Pos.size p) = 2 * 2 ^ (Z.pos (Pos.size p) - 1)).
    { rewrite <- Z.pow_succ_r by lia. f_equal. lia. }
    lia.
  - assert (H := Pos.size_gt p). apply Pos2Z.pos_lt_pos in H.
    rewrite Pos2Z.inj_pow in H. exact H.
Qed.

Lemma digits2_unique (p : positive) (n : Z) :
  2 ^ (n - 1) <= Z.pos p < 2 ^ n -> Z.pos (digits2_pos p) = n.
Proof.
  intros [H1 H2]. destruct (digits2_bounds p) as [D1 D2].
  assert (0 < n).
  { destruct (Z.le_gt_cases n 0); [|lia].
    rewrite (Z.pow_neg_r 2 n) in H2 by (destruct (Z.eq_dec n 0); [subst; simpl in *; lia|lia]).
    lia. }
  destruct (Z.lt_trichotomy (Z.pos (digits2_pos p)) n) as [L|[L|L]]; auto.
  - assert (2 ^ Z.pos (digits2_pos p) <= 2 ^ (n - 1)) by (apply Z.pow_le_mono_r; lia). lia.
  - assert (2 ^ n <= 2 ^ (Z.pos (digits2_pos p) - 1)) by (apply Z.pow_le_mono_r; lia). lia.
Qed.

Lemma digits2_mul_pow2 (p q : positive) (k : Z) :
  0 <= k -> Z.pos q = Z.pos p * 2 ^ k ->
  Z.pos (digits2_pos q) = Z.pos (digits2_pos p) + k.
Proof.
  intros Hk Hq. apply digits2_unique. destruct (digits2_bounds p) as [D1 D2].
  rewrite Hq.
  replace (Z.pos (digits2_pos p) + k - 1) with ((Z.pos (digits2_pos p) - 1) + k) by lia.
  rewrite !Z.pow_add_r by lia. split; nia.
Qed.

Lemma digits2_lt (p : positive) (n : Z) :
  Z.pos p < 2 ^ n -> Z.pos (digits2_pos p) <= n.
Proof.
  intros H. destruct (digits2_bounds p) as [D1 _].
  destruct (Z.le_gt_cases (Z.pos (digits2_pos p)) n) as [L|L]; auto.
  assert (2 ^ n <= 2 ^ (Z.pos (digits2_pos p) - 1)) by (apply Z.pow_le_mono_r; lia). lia.
Qed.

Lemma shl_align_spec (mx : positive) (ex ex' : Z) :
  ex' <= ex ->
  snd (shl_align mx ex ex') = ex' /\
  Z.pos (fst (shl_align mx ex ex')) = Z.pos mx * 2 ^ (ex - ex').
Proof.
  intros H. unfold shl_align.
  destruct (ex' - ex) eqn:E.
  - simpl. replace (ex - ex') with 0 by lia. simpl. lia.
  - lia.
  - simpl. rewrite iter_xO_mul. replace (ex - ex') with (Z.pos p) by lia. auto.
Qed.

Lemma shr_1_nonneg (r : shr_record) : 0 <= shr_m r -> 0 <= shr_m (shr_1 r).
Proof.
  destruct r as [m r s]; simpl; destruct m as [|[p|p|]|[p|p|]]; simpl; lia.
Qed.

Lemma iter_shr_1_nonneg (p : positive) :
  forall r, 0 <= shr_m r -> 0 <= shr_m (iter_pos shr_1 p r).
Proof. induction p; intros r H; simpl; auto using shr_1_nonneg. Qed.

Lemma shr_fexp_nonneg (p em m e : Z) (l : location) :
  0 <= m -> 0 <= shr_m (fst (shr_fexp p em m e l)).
Proof.
  intros H. unfold shr_fexp, shr.
  destruct (_ - e); simpl; try apply iter_shr_1_nonneg;
    destruct l as [|[]]; simpl; auto.
Qed.

Lemma round_nearest_even_nonneg (m : Z) (l : location) :
  0 <= m -> 0 <= round_nearest_even m l.
Proof. destruct l as [|[]]; simpl; try destruct (Z.even m); lia. Qed.

(** Rounding a non-negative mantissa never yields a NaN and keeps the sign
    it is given. *)
Lemma binary_round_aux_sign (p em : Z) (s : bool) (m e : Z) (l : location) :
  0 <= m ->
  sf_is_nan (binary_round_aux p em s m e l) = false /\
  sf_sign (binary_round_aux p em s m e l) = s.
Proof.
  intros H. unfold binary_round_aux.
  destruct (shr_fexp p em m e l) as [r1 e1] eqn:E1.
  assert (H1 : 0 <= shr_m r1).
  { change r1 with (fst (r1, e1)). rewrite <- E1. apply shr_fexp_nonneg; auto. }
  destruct (shr_fexp p em (round_nearest_even (shr_m r1) (loc_of_shr_record r1)) e1 loc_Exact)
    as [r2 e2] eqn:E2.
  assert (H2 : 0 <= shr_m r2).
  { change r2 with (fst (r2, e2)). rewrite <- E2.
    apply shr_fexp_nonneg, round_nearest_even_nonneg; auto. }
  destruct (shr_m r2); [auto | destruct (e2 <=? _); auto | lia].
Qed.

Lemma binary_round_sign (p em : Z) (s : bool) (mx : positive) (ex : Z) :
  sf_is_nan (binary_round p em s mx ex) = false /\
  sf_sign (binary_round p em s mx ex) = s.
Proof.
  unfold binary_round. destruct (shl_align _ _ _).
  apply binary_round_aux_sign. lia.
Qed.

Lemma binary_normalize_sign (p em m e : Z) (sz : bool) :
  m <> 0 ->
  sf_is_nan (binary_normalize p em m e sz) = false /\
  sf_sign (binary_normalize p em m e sz) = (m <? 0).
Proof.
  destruct m; simpl; intros H; [congruence | |]; apply binary_round_sign.
Qed.

(** A mantissa of at most 53 bits at an exponent of the binary64 range is
    rounded exactly. *)
Lemma binary_round_exact (s : bool) (q : positive) (e : Z) :
  Z.pos q < 2 ^ 53 -> -1074 <= e <= 971 ->
  exists m' e', binary_round prec emax s q e = S754_finite s m' e' /\
    e' <= e /\ Z.pos m' = Z.pos q * 2 ^ (e - e').
Proof.
  intros Hq He. unfold binary_round.
  set (t := fexp prec emax (Z.pos (digits2_pos q) + e)).
  assert (Hd := digits2_lt q 53 Hq).
  assert (Ht : -1074 <= t <= e).
  { unfold t. fexp_lia. }
  destruct (shl_align_spec q e t (proj2 Ht)) as [Es Em].
  destruct (shl_align q e t) as [mz ez] eqn:Esh. cbn [fst snd] in Es, Em. subst ez.
  assert (Hdz : Z.pos (digits2_pos mz) = Z.pos (digits2_pos q) + (e - t))
    by (apply digits2_mul_pow2; [lia | exact Em]).
  assert (Hf : fexp prec emax (Zdigits2 (Z.pos mz) + t) - t = 0).
  { simpl Zdigits2. rewrite Hdz.
    replace (Z.pos (digits2_pos q) + (e - t) + t) with (Z.pos (digits2_pos q) + e) by lia.
    fold t. lia. }
  unfold binary_round_aux, shr_fexp. rewrite Hf.
  cbn [shr shr_record_of_loc loc_of_shr_record round_nearest_even shr_m].
  rewrite Hf. cbn [shr shr_m].
  exists mz, t. split; [|split; [lia|exact Em]].
  replace (t <=? emax - prec) with true; [reflexivity|].
  symmetry. apply Z.leb_le. unfold prec, emax. simpl. lia.
Qed.

(** A finite binary64 float has a mantissa of at most 53 bits and an
    exponent in [-1074, 971]. *)
Lemma valid_finite_bounds (s : bool) (m : positive) (e : Z) :
  sf_valid (S754_finite s m e) = true ->
  Z.pos m < 2 ^ 53 /\ -1074 <= e <= 971.
Proof.
  unfold sf_valid, SpecFloat.valid_binary, bounded, canonical_mantissa.
  intros H. apply andb_prop in H. destruct H as [H1 H2].
  apply Z.eqb_eq in H1. apply Z.leb_le in H2.
  assert (Hd : Z.pos (digits2_pos m) <= 53) by fexp_lia.
  split; [|fexp_lia].
  destruct (digits2_bounds m) as [_ D].
  assert (2 ^ Z.pos (digits2_pos m) <= 2 ^ 53) by (apply Z.pow_le_mono_r; lia).
  lia.
Qed.

(** The sum of two finite floats of opposite signs, the first of smaller
    magnitude, is not NaN and has the sign of the second. *)
Lemma add_opposite_sign (sx : bool) (mx : positive) (ex : Z)
      (sy : bool) (my : positive) (ey : Z) :
  sx <> sy ->
  Z.pos mx * 2 ^ (ex - Z.min ex ey) < Z.pos my * 2 ^ (ey - Z.min ex ey) ->
  sf_is_nan (SF64add (S754_finite sx mx ex) (S754_finite sy my ey)) = false /\
  sf_sign (SF64add (S754_finite sx mx ex) (S754_finite sy my ey)) = sy.
Proof.
  intros Hs Hlt. unfold SF64add, SFadd. intdef_to_z.
  set (k := Z.min ex ey) in *.
  destruct (shl_align_spec mx ex k (Z.le_min_l _ _)) as [_ HA].
  destruct (shl_align_spec my ey k (Z.le_min_r _ _)) as [_ HB].
  set (X := cond_Zopp sx (Z.pos (fst (shl_align mx ex k))) +
            cond_Zopp sy (Z.pos (fst (shl_align my ey k)))).
  assert (HX : X <> 0 /\ (X <? 0) = sy).
  { unfold X. rewrite HA, HB.
    destruct sx, sy; try congruence; cbn [cond_Zopp]; split.
    - lia.
    - apply Z.ltb_ge. lia.
    - lia.
    - apply Z.ltb_lt. lia. }
  destruct HX as [HX1 HX2].
  destruct (binary_normalize_sign prec emax X k false HX1) as [H1 H2].
  rewrite HX2 in H2. auto.
Qed.

End RoundingFacts.


(** ** Rounding error of [SpecFloat]'s operations *)

Module RoundingError.
Import Calculator RoundingFacts RealValue.
Import Stdlib.Reals.Reals Stdlib.micromega.Psatz.
Local Open Scope R_scope.

Lemma bpow_pos (e : Z) : 0 < bpow e.
Proof. apply powerRZ_lt. lra. Qed.

Lemma bpow_plus (a b : Z) : bpow (a + b) = bpow a * bpow b.
Proof. apply powerRZ_add. lra. Qed.

Lemma bpow_1 : bpow 1 = 2.
Proof. unfold bpow. simpl. lra. Qed.

Lemma bpow_IZR (e : Z) : (0 <= e)%Z -> bpow e = IZR (2 ^ e).
Proof.
  intros H. destruct e as [|p|p]; [reflexivity| |lia].
  unfold bpow. simpl powerRZ. rewrite pow_IZR. f_equal. f_equal. lia.
Qed.

Lemma bpow_le (a b : Z) : (a <= b)%Z -> bpow a <= bpow b.
Proof.
  intros H. replace b with (a + (b - a))%Z by lia. rewrite bpow_plus.
  rewrite (bpow_IZR (b - a)) by lia.
  assert (1 <= IZR (2 ^ (b - a))).
  { apply IZR_le. assert (0 < 2 ^ (b - a))%Z by (apply Z.pow_pos_nonneg; lia). lia. }
  assert (Hp := bpow_pos a). nra.
Qed.

Lemma bpow_lt (a b : Z) : (a < b)%Z -> bpow a < bpow b.
Proof.
  intros H. replace b with ((a + 1) + (b - (a + 1)))%Z by lia. rewrite !bpow_plus, bpow_1.
  assert (Hp := bpow_pos a). assert (Hq : 1 <= bpow (b - (a + 1))).
  { rewrite bpow_IZR by lia. apply IZR_le.
    assert (0 < 2 ^ (b - (a + 1)))%Z by (apply Z.pow_pos_nonneg; lia). lia. }
  nra.
Qed.

(** An integer below [2 ^ k], read on the reals, and conversely. *)
Lemma IZR_lt_bpow (m k : Z) : (0 <= k)%Z -> (m < 2 ^ k)%Z -> IZR m < bpow k.
Proof. intros Hk H. rewrite bpow_IZR by exact Hk. apply IZR_lt. exact H. Qed.

Lemma IZR_ge_bpow (m k : Z) : (0 <= k)%Z -> (2 ^ k <= m)%Z -> bpow k <= IZR m.
Proof. intros Hk H. rewrite bpow_IZR by exact Hk. apply IZR_le. exact H. Qed.

Lemma bpow_lt_IZR (m k : Z) : (0 <= k)%Z -> IZR m < bpow k -> (m < 2 ^ k)%Z.
Proof. intros Hk H. rewrite bpow_IZR in H by exact Hk. apply lt_IZR. exact H. Qed.

Lemma inbetween_bounds (x : R) (m e : Z) (l : location) :
  inbetween x m e l -> IZR m * bpow e <= x < (IZR m + 1) * bpow e.
Proof.
  assert (Hu := bpow_pos e). destruct l as [|[]]; simpl; intros H; nra.
Qed.

Lemma IZR_xO (p : positive) : IZR (Z.pos p~0) = 2 * IZR (Z.pos p).
Proof. rewrite Pos2Z.inj_xO, mult_IZR. reflexivity. Qed.

Lemma IZR_xI (p : positive) : IZR (Z.pos p~1) = 2 * IZR (Z.pos p) + 1.
Proof. rewrite Pos2Z.inj_xI, plus_IZR, mult_IZR. reflexivity. Qed.

(** One step of [shr_1] halves the grid and keeps the location right. *)
Lemma inbetween_shr_1 (x : R) (r : shr_record) (e : Z) :
  (0 <= shr_m r)%Z -> inbetween x (shr_m r) e (loc_of_shr_record r) ->
  inbetween x (shr_m (shr_1 r)) (e + 1) (loc_of_shr_record (shr_1 r)).
Proof.
  destruct r as [m rb sb]. cbn [shr_m]. intros Hm H. assert (Hu := bpow_pos e).
  destruct m as [|p|p]; [|destruct p|lia];
    destruct rb, sb; cbn [shr_1 loc_of_shr_record shr_m orb inbetween] in *;
    rewrite bpow_plus, bpow_1; try rewrite IZR_xO in *; try rewrite IZR_xI in *; lra.
Qed.

Lemma inbetween_iter_shr_1 (x : R) (p : positive) :
  forall r e, (0 <= shr_m r)%Z -> inbetween x (shr_m r) e (loc_of_shr_record r) ->
  (0 <= shr_m (SpecFloat.iter_pos shr_1 p r))%Z /\
  inbetween x (shr_m (SpecFloat.iter_pos shr_1 p r)) (e + Z.pos p)
    (loc_of_shr_record (SpecFloat.iter_pos shr_1 p r)).
Proof.
  induction p as [p IH|p IH|]; intros r e Hm H; cbn [SpecFloat.iter_pos].
  - destruct (IH (shr_1 r) (e + 1)%Z (shr_1_nonneg r Hm) (inbetween_shr_1 x r e Hm H))
      as [H1 H2].
    destruct (IH _ _ H1 H2) as [H3 H4]. split; [exact H3|].
    replace (e + Z.pos p~1)%Z with (e + 1 + Z.pos p + Z.pos p)%Z by lia. exact H4.
  - destruct (IH r e Hm H) as [H1 H2]. destruct (IH _ _ H1 H2) as [H3 H4].
    split; [exact H3|].
    replace (e + Z.pos p~0)%Z with (e + Z.pos p + Z.pos p)%Z by lia. exact H4.
  - split; [apply shr_1_nonneg; exact Hm|]. apply inbetween_shr_1; assumption.
Qed.


Lemma Zdigits2_bounds (m : Z) :
  (0 < m)%Z -> (2 ^ (Zdigits2 m - 1) <= m < 2 ^ Zdigits2 m)%Z.
Proof. destruct m as [|p|p]; try lia. intros _. apply digits2_bounds. Qed.

Lemma Zdigits2_succ (m : Z) : (0 <= m)%Z -> (m + 1 <= 2 ^ Zdigits2 m)%Z.
Proof.
  intros H. destruct (Z.eq_dec m 0) as [->|Hm]; [simpl; lia|].
  assert (Hb := Zdigits2_bounds m). lia.
Qed.

Lemma Zdigits2_unique (m k : Z) :
  (2 ^ (k - 1) <= m < 2 ^ k)%Z -> Zdigits2 m = k.
Proof.
  intros H. destruct m as [|p|p].
  - destruct (Z.le_gt_cases k 0) as [Hk|Hk].
    + destruct (Z.eq_dec k 0) as [->|Hk']; [reflexivity|].
      rewrite (Z.pow_neg_r 2 k) in H by lia. lia.
    + assert (0 < 2 ^ (k - 1))%Z by (apply Z.pow_pos_nonneg; lia). lia.
  - apply digits2_unique. exact H.
  - assert (0 <= 2 ^ (k - 1))%Z by (apply Z.pow_nonneg; lia). lia.
Qed.

Lemma Zdigits2_nonneg (m : Z) : (0 <= Zdigits2 m)%Z.
Proof. destruct m; simpl; lia. Qed.

Lemma grid_lt (a e k : Z) :
  (e <= k)%Z -> IZR a * bpow e < bpow k -> (a < 2 ^ (k - e))%Z.
Proof.
  intros Hk H. apply bpow_lt_IZR; [lia|].
  replace k with ((k - e) + e)%Z in H by lia. rewrite bpow_plus in H.
  assert (Hu := bpow_pos e). nra.
Qed.

Lemma grid_gt (a e k : Z) :
  (e <= k)%Z -> bpow k < IZR a * bpow e -> (2 ^ (k - e) < a)%Z.
Proof.
  intros Hk H. apply lt_IZR. rewrite <- bpow_IZR by lia.
  replace k with ((k - e) + e)%Z in H by lia. rewrite bpow_plus in H.
  assert (Hu := bpow_pos e). nra.
Qed.

Lemma loc_of_record_of_loc (m : Z) (l : location) :
  loc_of_shr_record (shr_record_of_loc m l) = l /\ shr_m (shr_record_of_loc m l) = m.
Proof. destruct l as [|[]]; split; reflexivity. Qed.

(** A non-negative real on a grid of mantissa [m] lies below [2 ^ (digits m + e)]. *)
Lemma inbetween_upper (x : R) (m e : Z) (l : location) :
  (0 <= m)%Z -> inbetween x m e l -> x < bpow (Zdigits2 m + e).
Proof.
  intros Hm H. apply inbetween_bounds in H. destruct H as [_ H].
  rewrite bpow_plus. assert (Hu := bpow_pos e).
  assert (IZR m + 1 <= bpow (Zdigits2 m)).
  { rewrite bpow_IZR by apply Zdigits2_nonneg. rewrite <- plus_IZR. apply IZR_le.
    apply Zdigits2_succ. exact Hm. }
  nra.
Qed.

Lemma inbetween_lower (x : R) (m e : Z) (l : location) :
  (0 < m)%Z -> inbetween x m e l -> bpow (Zdigits2 m - 1 + e) <= x.
Proof.
  intros Hm H. apply inbetween_bounds in H. destruct H as [H _].
  rewrite bpow_plus. assert (Hu := bpow_pos e).
  assert (bpow (Zdigits2 m - 1) <= IZR m).
  { assert (Hb := Zdigits2_bounds m Hm).
    apply IZR_ge_bpow; [|lia]. destruct m; [lia | cbn [Zdigits2]; lia | lia]. }
  nra.
Qed.

(** The first shift of [binary_round_aux] keeps the location right and lands
    on the canonical exponent, unless the mantissa is exact and already fits. *)
Lemma round_step1 (x : R) (m e : Z) (l : location) :
  (0 <= m)%Z -> inbetween x m e l ->
  (l = loc_Exact \/ (e <= fexp prec emax (Zdigits2 m + e))%Z) ->
  let r' := fst (shr_fexp prec emax m e l) in
  let e' := snd (shr_fexp prec emax m e l) in
  (0 <= shr_m r')%Z /\ inbetween x (shr_m r') e' (loc_of_shr_record r') /\
  (fexp prec emax (Zdigits2 (shr_m r') + e') = e' \/
     (loc_of_shr_record r' = loc_Exact /\
      (fexp prec emax (Zdigits2 (shr_m r') + e') <= e')%Z)) /\
  ((e' = e /\ loc_of_shr_record r' = l /\ shr_m r' = m) \/
     (e < e' /\ e' = fexp prec emax (Zdigits2 m + e) /\
      fexp prec emax (Zdigits2 (shr_m r') + e') = e')%Z).
Proof.
  intros Hm H Hpre. unfold shr_fexp, shr.
  destruct (loc_of_record_of_loc m l) as [L1 L2].
  destruct (fexp prec emax (Zdigits2 m + e) - e)%Z as [|p|p] eqn:Ed; cbn [fst snd].
  - rewrite L1, L2. split; [exact Hm|]. split; [exact H|]. split; [left; lia|].
    left; auto.
  - assert (H' : inbetween x (shr_m (shr_record_of_loc m l)) e
                    (loc_of_shr_record (shr_record_of_loc m l))) by (rewrite L1, L2; exact H).
    assert (Hm' : (0 <= shr_m (shr_record_of_loc m l))%Z) by (rewrite L2; exact Hm).
    destruct (inbetween_iter_shr_1 x p _ e Hm' H') as [H1 H2].
    set (ms := shr_m (SpecFloat.iter_pos shr_1 p (shr_record_of_loc m l))) in *.
    set (D := Zdigits2 m) in *.
    split; [exact H1|]. split; [exact H2|].
    enough (Hc : fexp prec emax (Zdigits2 ms + (e + Z.pos p)) = (e + Z.pos p)%Z)
      by (split; [left; exact Hc | right; repeat split; [lia | lia | exact Hc]]).
    assert (Hx := inbetween_upper x m e l Hm H).
    fold D in Hx.
    assert (Hs := inbetween_bounds _ _ _ _ H2).
    destruct (Z_lt_le_dec (e + Z.pos p) (D + e)) as [Hlt|Hge].
    + assert (Hm0 : (0 < m)%Z).
      { destruct (Z.eq_dec m 0) as [E|E]; [|lia]. unfold D in Hlt. rewrite E in Hlt.
        simpl in Hlt. lia. }
      assert (Hlo := inbetween_lower x m e l Hm0 H).
      fold D in Hlo.
      assert (A1 : (ms < 2 ^ (D + e - (e + Z.pos p)))%Z).
      { apply grid_lt; [lia|]. lra. }
      assert (A2 : (2 ^ (D - 1 + e - (e + Z.pos p)) < ms + 1)%Z).
      { apply grid_gt; [lia|]. rewrite plus_IZR. lra. }
      rewrite (Zdigits2_unique ms (D + e - (e + Z.pos p))).
      * replace (D + e - (e + Z.pos p) + (e + Z.pos p))%Z with (D + e)%Z by lia. lia.
      * replace (D + e - (e + Z.pos p) - 1)%Z with (D - 1 + e - (e + Z.pos p))%Z by lia.
        lia.
    + assert (A1 : (ms < 1)%Z).
      { replace 1%Z with (2 ^ (e + Z.pos p - (e + Z.pos p)))%Z by (rewrite Z.sub_diag; reflexivity).
        apply grid_lt; [lia|]. assert (bpow (D + e) <= bpow (e + Z.pos p)) by (apply bpow_le; lia).
        lra. }
      replace ms with 0%Z by lia. simpl Zdigits2.
      assert (Hd := Zdigits2_nonneg m). fold D in Hd. fexp_lia.
  - rewrite L1, L2. split; [exact Hm|]. split; [exact H|].
    split; [|left; auto]. right. split; [|lia].
    destruct Hpre as [->|Hpre]; [reflexivity|lia].
Qed.


Lemma loc_exact_dec (l : location) : {l = loc_Exact} + {l <> loc_Exact}.
Proof. destruct l; [left; reflexivity | right; discriminate]. Qed.

(** Rounding to nearest, ties to even, moves the mantissa by at most half a
    unit, and only up by one. *)
Lemma rne_spec (x : R) (m e : Z) (l : location) :
  inbetween x m e l ->
  let m1 := round_nearest_even m l in
  (m1 = m \/ (m1 = m + 1 /\ l <> loc_Exact))%Z /\
  Rabs (IZR m1 * bpow e - x) <= bpow e / 2 /\
  (l = loc_Exact -> IZR m1 * bpow e = x) /\
  ((m1 = m + 1)%Z -> (IZR m + / 2) * bpow e <= x).
Proof.
  intros H. assert (Hu := bpow_pos e).
  destruct l as [|[]]; cbn [round_nearest_even inbetween] in *;
    [| destruct (Z.even m) | |]; rewrite ?plus_IZR;
    (split; [first [left; reflexivity | right; split; [reflexivity | discriminate]] |]);
    (split; [apply Rabs_le; lra |]);
    (split; [intros E; discriminate E || lra |]);
    intros E; try lia; lra.
Qed.

Lemma Zdigits2_le (m k : Z) :
  (0 <= m)%Z -> (0 <= k)%Z -> (m < 2 ^ k)%Z -> (Zdigits2 m <= k)%Z.
Proof.
  intros Hm Hk H. destruct (Z.eq_dec m 0) as [->|E]; [simpl; lia|].
  assert (Hb := Zdigits2_bounds m ltac:(lia)).
  destruct (Z.le_gt_cases (Zdigits2 m) k) as [L|L]; [exact L|].
  assert (2 ^ k <= 2 ^ (Zdigits2 m - 1))%Z by (apply Z.pow_le_mono_r; lia). lia.
Qed.

(** The second shift of [binary_round_aux] is exact: it either does nothing
    or halves the mantissa [2 ^ 53] that a carry produced. *)
Lemma round_step3 (ms e' : Z) (l' : location) :
  (0 <= ms)%Z ->
  (fexp prec emax (Zdigits2 ms + e') = e' \/
     (l' = loc_Exact /\ (fexp prec emax (Zdigits2 ms + e') <= e')%Z)) ->
  let m1 := round_nearest_even ms l' in
  shr_fexp prec emax m1 e' loc_Exact = (shr_record_of_loc m1 loc_Exact, e') \/
  (m1 = 2 ^ 53 /\ shr_fexp prec emax m1 e' loc_Exact =
     ({| shr_m := 2 ^ 52; shr_r := false; shr_s := false |}, e' + 1))%Z.
Proof.
  intros Hm Hc m1.
  assert (Hm1 : (m1 = ms \/ (m1 = ms + 1 /\ l' <> loc_Exact))%Z).
  { unfold m1. destruct l' as [|[]]; cbn [round_nearest_even];
      [| destruct (Z.even ms) | |];
      first [left; reflexivity | right; split; [reflexivity | discriminate]]. }
  unfold shr_fexp, shr.
  destruct Hc as [Hc|[Hl Hc]].
  - assert (Hd := Zdigits2_nonneg ms).
    assert (Hd53 : (Zdigits2 ms <= 53)%Z) by fexp_lia.
    assert (He : (-1074 <= e')%Z) by fexp_lia.
    assert (Hlt : (ms < 2 ^ 53)%Z).
    { destruct (Z.eq_dec ms 0) as [->|E]; [lia|].
      assert (Hb := Zdigits2_bounds ms ltac:(lia)).
      assert (2 ^ Zdigits2 ms <= 2 ^ 53)%Z by (apply Z.pow_le_mono_r; lia). lia. }
    destruct (Z.eq_dec m1 (2 ^ 53)) as [E|E].
    + right. split; [exact E|]. rewrite E.
      change (Zdigits2 (2 ^ 53)) with 54%Z.
      replace (fexp prec emax (54 + e') - e')%Z with 1%Z by fexp_lia.
      reflexivity.
    + left.
      assert (Hd1 : (Zdigits2 m1 <= 53)%Z) by (apply Zdigits2_le; lia).
      assert (Hd1' := Zdigits2_nonneg m1).
      destruct (fexp prec emax (Zdigits2 m1 + e') - e')%Z eqn:Ed; try reflexivity.
      exfalso. fexp_lia.
  - left. destruct Hm1 as [Hm1|[_ Hm1]]; [|contradiction].
    rewrite Hm1.
    destruct (fexp prec emax (Zdigits2 ms + e') - e')%Z eqn:Ed; try reflexivity. lia.
Qed.


Lemma bpow_m1 : bpow (-1) = / 2.
Proof. unfold bpow. simpl. field. Qed.

Lemma bpow_52 : bpow 52 = 4503599627370496.
Proof. rewrite bpow_IZR by lia. reflexivity. Qed.

Lemma bpow_53 : bpow 53 = 9007199254740992.
Proof. rewrite bpow_IZR by lia. reflexivity. Qed.

(** The largest finite binary64 float plus half a unit in the last place:
    what rounds to infinity lies at or beyond it. *)
Lemma bpow_overflow : bpow 1024 - bpow 970 = (9007199254740992 - / 2) * bpow 971.
Proof.
  replace 1024%Z with (53 + 971)%Z by reflexivity.
  replace 970%Z with (-1 + 971)%Z by reflexivity.
  rewrite !bpow_plus, bpow_53, bpow_m1. ring.
Qed.

Lemma bpow_half (e : Z) : bpow e / 2 = bpow (e - 1).
Proof.
  replace (e - 1)%Z with (e + -1)%Z by lia. rewrite bpow_plus, bpow_m1.
  unfold Rdiv. reflexivity.
Qed.

(** The error made on the magnitude by rounding after the first shift. *)
Lemma round_error_core (x : R) (m e ms e1 : Z) (l l1 : location) :
  (0 <= ms)%Z -> inbetween x ms e1 l1 ->
  (fexp prec emax (Zdigits2 ms + e1) = e1 \/
     (l1 = loc_Exact /\ (fexp prec emax (Zdigits2 ms + e1) <= e1)%Z)) ->
  ((e1 = e /\ l1 = l /\ ms = m) \/
     (e < e1 /\ e1 = fexp prec emax (Zdigits2 m + e) /\
      fexp prec emax (Zdigits2 ms + e1) = e1))%Z ->
  let v := IZR (round_nearest_even ms l1) * bpow e1 in
  Rabs (v - x) <= bpow (-53) * x \/
  (Rabs (v - x) <= bpow (-1075) /\ (l <> loc_Exact \/ (e < -1074)%Z)).
Proof.
  intros Hms H Hc Hlast v.
  pose proof (rne_spec x ms e1 l1 H) as R. cbv zeta in R.
  destruct R as (_ & R2 & R3 & _). fold v in R2, R3.
  assert (Hb := inbetween_bounds _ _ _ _ H).
  assert (Hu := bpow_pos e1). assert (Hu' := bpow_pos (-53)).
  assert (Hx : 0 <= x) by (assert (0 <= IZR ms) by (apply IZR_le; lia); nra).
  destruct (loc_exact_dec l1) as [E|E].
  - left. rewrite (R3 E). rewrite Rminus_diag, Rabs_R0. nra.
  - destruct Hc as [Hc|[Hc _]]; [|contradiction].
    rewrite bpow_half in R2.
    destruct (Z.eq_dec e1 (-1074)) as [E1|E1].
    + right. rewrite E1 in R2. split; [exact R2|].
      destruct Hlast as [(_ & Hl & _)|(Hl & _)].
      * left. rewrite <- Hl. exact E.
      * right. lia.
    + left.
      assert (Hd : Zdigits2 ms = 53%Z) by fexp_lia.
      assert (Hms0 : (0 < ms)%Z) by (destruct ms; simpl in Hd; lia).
      assert (H52 : bpow 52 <= IZR ms).
      { assert (Hdb := Zdigits2_bounds ms Hms0). rewrite Hd in Hdb.
        apply IZR_ge_bpow; lia. }
      assert (Hxl : bpow (52 + e1) <= x) by (rewrite bpow_plus; nra).
      assert (bpow (e1 - 1) = bpow (-53) * bpow (52 + e1))
        by (rewrite <- bpow_plus; f_equal; lia).
      nra.
Qed.


Lemma sgn_abs (s : bool) (a b : R) : Rabs (sgn s * a - sgn s * b) = Rabs (a - b).
Proof.
  destruct s; unfold sgn; [|f_equal; ring].
  replace (-1 * a - -1 * b) with (- (a - b)) by ring. apply Rabs_Ropp.
Qed.

(** The error bound of [binary_round_aux]: a non-negative real [x] on the grid
    [m * 2^e] with location [l] is rounded, with sign [s], to a finite float
    within a relative error of [2^-53], or within [2^-1075] when the result
    is subnormal and the rounding was inexact; or to an infinity, which
    happens only at or beyond the largest float plus half a unit (or for an
    exact mantissa given at a needlessly large exponent). *)
Lemma binary_round_aux_error (x : R) (s : bool) (m e : Z) (l : location) :
  (0 <= m)%Z -> inbetween x m e l ->
  (l = loc_Exact \/ (e <= fexp prec emax (Zdigits2 m + e))%Z) ->
  let r := binary_round_aux prec emax s m e l in
  (sf_is_finite r = true /\
   (Rabs (sf_real r - sgn s * x) <= bpow (-53) * x \/
    (Rabs (sf_real r - sgn s * x) <= bpow (-1075) /\
     (l <> loc_Exact \/ (e < -1074)%Z)))) \/
  ((exists s', r = S754_infinity s') /\
   (bpow 1024 - bpow 970 <= x \/
    (l = loc_Exact /\ (fexp prec emax (Zdigits2 m + e) < e)%Z))).
Proof.
  intros Hm H Hpre r. unfold r, binary_round_aux.
  pose proof (round_step1 x m e l Hm H Hpre) as S1. cbv zeta in S1.
  destruct (shr_fexp prec emax m e l) as [r1 e1] eqn:E1. cbn [fst snd] in S1.
  destruct S1 as (Hms & H1 & Hc & Hlast).
  set (ms := shr_m r1) in *. set (l1 := loc_of_shr_record r1) in *.
  pose proof (round_error_core x m e ms e1 l l1 Hms H1 Hc Hlast) as Err.
  cbv zeta in Err.
  pose proof (rne_spec x ms e1 l1 H1) as R. cbv zeta in R.
  destruct R as (Rm & _ & _ & R4).
  pose proof (round_step3 ms e1 l1 Hms Hc) as S3. cbv zeta in S3.
  assert (Hm1 := round_nearest_even_nonneg ms l1 Hms).
  remember (round_nearest_even ms l1) as m1 eqn:Em1.
  assert (Hb := inbetween_bounds _ _ _ _ H1).
  assert (Hu := bpow_pos e1).
  assert (Hx : 0 <= x) by (assert (0 <= IZR ms) by (apply IZR_le; lia); nra).
  (* overflow without a carry: the mantissa already had 53 digits *)
  assert (Ovf : (971 < e1)%Z ->
            bpow 1024 - bpow 970 <= x \/
            (l = loc_Exact /\ (fexp prec emax (Zdigits2 m + e) < e)%Z)).
  { intros He1.
    destruct (Z.eq_dec (fexp prec emax (Zdigits2 ms + e1)) e1) as [Hc'|Hc'].
    - left. assert (Hd : Zdigits2 ms = 53%Z) by fexp_lia.
      assert (Hms0 : (0 < ms)%Z) by (destruct ms; simpl in Hd; lia).
      assert (Hdb := Zdigits2_bounds ms Hms0). rewrite Hd in Hdb.
      assert (H52 : bpow 52 <= IZR ms) by (apply IZR_ge_bpow; lia).
      assert (bpow 1024 <= bpow (52 + e1)) by (apply bpow_le; lia).
      assert (bpow (52 + e1) <= x) by (rewrite bpow_plus; nra).
      assert (Hp := bpow_pos 970). lra.
    - right. destruct Hlast as [(-> & Hl & Hmm)|(_ & _ & Hc'')]; [|contradiction].
      destruct Hc as [Hc|[Hl1 Hc]]; [contradiction|].
      split; [rewrite <- Hl; exact Hl1|]. rewrite <- Hmm. lia. }
  destruct S3 as [S3|[E53 S3]]; rewrite S3; cbn [shr_m shr_record_of_loc].
  - destruct m1 as [|p|p]; [| |lia].
    + left. split; [reflexivity|]. cbn [sf_real].
      replace 0 with (sgn s * (IZR 0 * bpow e1)) by (simpl; ring).
      rewrite sgn_abs. exact Err.
    + destruct (e1 <=? emax - prec)%Z eqn:Ee.
      * left. split; [reflexivity|]. cbn [sf_real].
        rewrite Rmult_assoc, sgn_abs. exact Err.
      * right. split; [exists s; reflexivity|]. apply Ovf.
        apply Z.leb_gt in Ee. unfold emax, prec in Ee. lia.
  - cbn [shr_m]. change (2 ^ 52)%Z with 4503599627370496%Z.
    destruct (e1 + 1 <=? emax - prec)%Z eqn:Ee.
    + left. split; [reflexivity|]. cbn [sf_real]. rewrite Rmult_assoc.
      replace (IZR 4503599627370496 * bpow (e1 + 1)) with (IZR m1 * bpow e1)
        by (rewrite E53, bpow_plus, bpow_1; change (2 ^ 53)%Z with 9007199254740992%Z;
            ring).
      rewrite sgn_abs. exact Err.
    + right. split; [exists s; reflexivity|].
      apply Z.leb_gt in Ee. unfold emax, prec in Ee.
      destruct (Z.eq_dec 971 e1) as [<-|Ne]; [|apply Ovf; lia].
      left.
      assert (Hup : m1 = (ms + 1)%Z).
      { destruct Rm as [Rm|[Rm _]]; [|exact Rm].
        exfalso. rewrite <- Rm, E53 in Hc. change (Zdigits2 (2 ^ 53)) with 54%Z in Hc.
        destruct Hc as [Hc|[_ Hc]]; fexp_lia. }
      specialize (R4 Hup). rewrite E53 in Hup.
      assert (Ems : IZR ms = 9007199254740991).
      { replace ms with (2 ^ 53 - 1)%Z by lia. reflexivity. }
      rewrite bpow_overflow. rewrite Ems in R4. lra.
Qed.


Lemma abs_zero_le (d c v : R) : d = 0 -> 0 <= c -> Rabs d <= c * Rabs v.
Proof.
  intros -> Hc. rewrite Rabs_R0. apply Rmult_le_pos; [exact Hc | apply Rabs_pos].
Qed.

Lemma sgn_abs_mul (s : bool) (x : R) : Rabs (sgn s * x) = Rabs x.
Proof.
  destruct s; unfold sgn; [|f_equal; ring].
  replace (-1 * x) with (- x) by ring. apply Rabs_Ropp.
Qed.

Lemma IZR_shl_align (m : positive) (e e' : Z) :
  (e' <= e)%Z ->
  IZR (Z.pos (fst (shl_align m e e'))) * bpow e' = IZR (Z.pos m) * bpow e.
Proof.
  intros H. destruct (shl_align_spec m e e' H) as [_ E]. rewrite E, mult_IZR.
  rewrite <- bpow_IZR by lia. rewrite Rmult_assoc, <- bpow_plus. f_equal. f_equal. lia.
Qed.

Lemma IZR_cond_shl_align (s : bool) (m : positive) (e e' : Z) :
  (e' <= e)%Z ->
  IZR (cond_Zopp s (Z.pos (fst (shl_align m e e')))) * bpow e' =
  sgn s * IZR (Z.pos m) * bpow e.
Proof.
  intros H. rewrite Rmult_assoc, <- (IZR_shl_align m e e' H).
  destruct s; cbn [cond_Zopp]; unfold sgn; rewrite ?opp_IZR; ring.
Qed.

Lemma valid_finite_exp (s : bool) (m : positive) (e : Z) :
  sf_valid (S754_finite s m e) = true -> (-1074 <= e)%Z.
Proof. intros H. apply valid_finite_bounds in H. lia. Qed.

(** [binary_round], at an exponent of the binary64 range, is within a
    relative error of [2^-53], or overflows. *)
Lemma binary_round_error (s : bool) (p : positive) (e : Z) :
  (-1074 <= e)%Z ->
  let r := binary_round prec emax s p e in
  (sf_is_finite r = true /\
   Rabs (sf_real r - sgn s * (IZR (Z.pos p) * bpow e)) <=
     bpow (-53) * (IZR (Z.pos p) * bpow e)) \/
  (exists s', r = S754_infinity s').
Proof.
  intros He r. unfold r, binary_round.
  set (t := fexp prec emax (Z.pos (digits2_pos p) + e)).
  assert (Ht : (-1074 <= t)%Z) by (unfold t; fexp_lia).
  assert (Hal : let (mz, ez) := shl_align p e t in
                IZR (Z.pos mz) * bpow ez = IZR (Z.pos p) * bpow e /\ (-1074 <= ez)%Z).
  { unfold shl_align. destruct (t - e)%Z as [|d|d] eqn:E; try (split; [reflexivity | lia]).
    split; [|exact Ht]. rewrite iter_xO_mul, mult_IZR, <- bpow_IZR by lia.
    rewrite Rmult_assoc, <- bpow_plus. f_equal. f_equal. lia. }
  destruct (shl_align p e t) as [mz ez]. destruct Hal as [Hv Hez].
  assert (Hin : inbetween (IZR (Z.pos mz) * bpow ez) (Z.pos mz) ez loc_Exact) by reflexivity.
  pose proof (binary_round_aux_error _ s (Z.pos mz) ez loc_Exact ltac:(lia) Hin
                (or_introl eq_refl)) as B.
  cbv zeta in B. rewrite Hv in B.
  destruct B as [[Hf [B|[_ [B|B]]]]|[B _]].
  - left. split; assumption.
  - contradiction.
  - lia.
  - right. exact B.
Qed.

Lemma binary_normalize_error (M ez : Z) (sz : bool) :
  (-1074 <= ez)%Z ->
  let r := binary_normalize prec emax M ez sz in
  (sf_is_finite r = true /\
   Rabs (sf_real r - IZR M * bpow ez) <= bpow (-53) * Rabs (IZR M * bpow ez)) \/
  (exists s', r = S754_infinity s').
Proof.
  intros Hez r. unfold r. destruct M as [|p|p]; cbn [binary_normalize].
  - left. split; [reflexivity|]. apply abs_zero_le; [cbn [sf_real]; ring | left; apply bpow_pos].
  - destruct (binary_round_error false p ez Hez) as [[F B]|B]; [left|right; exact B].
    split; [exact F|]. unfold sgn in B. rewrite Rmult_1_l in B.
    rewrite (Rabs_pos_eq (IZR (Z.pos p) * bpow ez)); [exact B|].
    apply Rmult_le_pos; [apply IZR_le; lia | left; apply bpow_pos].
  - destruct (binary_round_error true p ez Hez) as [[F B]|B]; [left|right; exact B].
    split; [exact F|].
    replace (IZR (Z.neg p) * bpow ez) with (sgn true * (IZR (Z.pos p) * bpow ez))
      by (cbn [sgn]; change (IZR (Z.neg p)) with (IZR (- Z.pos p)); rewrite opp_IZR; ring).
    rewrite sgn_abs_mul, (Rabs_pos_eq (IZR (Z.pos p) * bpow ez)); [exact B|].
    apply Rmult_le_pos; [apply IZR_le; lia | left; apply bpow_pos].
Qed.

(** Rounding keeps exponents at least [-1074]. *)
Lemma binary_round_aux_exp (x : R) (s : bool) (m e : Z) (l : location) :
  (-1074 <= e)%Z -> (0 <= m)%Z -> inbetween x m e l ->
  (l = loc_Exact \/ (e <= fexp prec emax (Zdigits2 m + e))%Z) ->
  exp_in_range (binary_round_aux prec emax s m e l).
Proof.
  intros He Hm H Hpre. unfold binary_round_aux.
  pose proof (round_step1 x m e l Hm H Hpre) as S1. cbv zeta in S1.
  destruct (shr_fexp prec emax m e l) as [r1 e1] eqn:E1. cbn [fst snd] in S1.
  destruct S1 as (Hms & _ & Hc & Hlast).
  assert (He1 : (-1074 <= e1)%Z).
  { destruct Hlast as [(-> & _)|(_ & -> & _)]; [exact He | fexp_lia]. }
  pose proof (round_step3 _ e1 _ Hms Hc) as S3. cbv zeta in S3.
  remember (round_nearest_even (shr_m r1) (loc_of_shr_record r1)) as m1 eqn:Em1.
  destruct S3 as [S3|[_ S3]]; rewrite S3; cbn [shr_m shr_record_of_loc].
  - destruct m1 as [|p|p]; [exact I| |exact I].
    destruct (e1 <=? emax - prec)%Z; cbn [exp_in_range]; [lia | exact I].
  - change (2 ^ 52)%Z with 4503599627370496%Z.
    destruct (e1 + 1 <=? emax - prec)%Z; cbn [exp_in_range]; [lia | exact I].
Qed.

Lemma binary_round_exp (s : bool) (p : positive) (e : Z) :
  (-1074 <= e)%Z -> exp_in_range (binary_round prec emax s p e).
Proof.
  intros He. unfold binary_round.
  set (t := fexp prec emax (Z.pos (digits2_pos p) + e)).
  assert (Ht : (-1074 <= t)%Z) by (unfold t; fexp_lia).
  assert (Hal : (-1074 <= snd (shl_align p e t))%Z).
  { unfold shl_align. destruct (t - e)%Z; cbn [snd]; lia. }
  destruct (shl_align p e t) as [mz ez]. cbn [snd] in Hal.
  apply (binary_round_aux_exp (IZR (Z.pos mz) * bpow ez)); try lia.
  - reflexivity.
  - left. reflexivity.
Qed.

Lemma binary_normalize_exp (M ez : Z) (sz : bool) :
  (-1074 <= ez)%Z -> exp_in_range (binary_normalize prec emax M ez sz).
Proof.
  intros H. destruct M as [|p|p]; cbn [binary_normalize];
    [exact I | apply binary_round_exp; exact H..].
Qed.

Lemma valid_exp_in_range (x : pyfloat) : sf_valid x = true -> exp_in_range x.
Proof.
  destruct x as [s|s| |s m e]; intros V; try exact I.
  exact (valid_finite_exp s m e V).
Qed.

(** The sum and the difference of floats of exponents at least [-1074] have
    one too. *)
Lemma add_exp (a b : pyfloat) :
  exp_in_range a -> exp_in_range b -> exp_in_range (SF64add a b).
Proof.
  intros Ha Hb. unfold SF64add, SFadd.
  destruct a as [sa|sa| |sa ma ea], b as [sb|sb| |sb mb eb];
    try destruct sa; try destruct sb; try exact I; try assumption.
  all: apply binary_normalize_exp; cbn [exp_in_range] in Ha, Hb; lia.
Qed.

Lemma sub_exp (a b : pyfloat) :
  exp_in_range a -> exp_in_range b -> exp_in_range (SF64sub a b).
Proof.
  intros Ha Hb. unfold SF64sub, SFsub.
  destruct a as [sa|sa| |sa ma ea], b as [sb|sb| |sb mb eb];
    try destruct sa; try destruct sb; try exact I; try assumption.
  all: apply binary_normalize_exp; cbn [exp_in_range] in Ha, Hb; lia.
Qed.

Ltac exact_result :=
  left; split; [reflexivity|];
  apply abs_zero_le; [cbn [sf_real]; ring | left; apply bpow_pos].

(** Addition of two binary64 floats: the exact sum, within a relative error
    of [2^-53], or an overflow. *)
Lemma add_error (a b : pyfloat) :
  exp_in_range a -> exp_in_range b ->
  sf_is_finite a = true -> sf_is_finite b = true ->
  let r := SF64add a b in
  (sf_is_finite r = true /\
   Rabs (sf_real r - (sf_real a + sf_real b)) <= bpow (-53) * Rabs (sf_real a + sf_real b)) \/
  (exists s, r = S754_infinity s).
Proof.
  intros Va Vb Fa Fb r. unfold r, SF64add, SFadd.
  destruct a as [sa|sa| |sa ma ea]; try discriminate;
  destruct b as [sb|sb| |sb mb eb]; try discriminate.
  - destruct sa, sb; exact_result.
  - exact_result.
  - exact_result.
  - cbn [exp_in_range] in Va, Vb.
    set (ez := Z.min ea eb).
    assert (Hsum : IZR (cond_Zopp sa (Z.pos (fst (shl_align ma ea ez))) +
                        cond_Zopp sb (Z.pos (fst (shl_align mb eb ez)))) * bpow ez =
                   sf_real (S754_finite sa ma ea) + sf_real (S754_finite sb mb eb)).
    { rewrite plus_IZR, Rmult_plus_distr_r.
      rewrite !IZR_cond_shl_align by lia. reflexivity. }
    rewrite <- Hsum. apply binary_normalize_error. lia.
Qed.

Lemma sub_error (a b : pyfloat) :
  exp_in_range a -> exp_in_range b ->
  sf_is_finite a = true -> sf_is_finite b = true ->
  let r := SF64sub a b in
  (sf_is_finite r = true /\
   Rabs (sf_real r - (sf_real a - sf_real b)) <= bpow (-53) * Rabs (sf_real a - sf_real b)) \/
  (exists s, r = S754_infinity s).
Proof.
  intros Va Vb Fa Fb r. unfold r, SF64sub, SFsub.
  destruct a as [sa|sa| |sa ma ea]; try discriminate;
  destruct b as [sb|sb| |sb mb eb]; try discriminate.
  - destruct sa, sb; exact_result.
  - left. split; [reflexivity|].
    apply abs_zero_le; [cbn [sf_real]; destruct sb; unfold sgn; cbn [negb]; ring
                       | left; apply bpow_pos].
  - exact_result.
  - cbn [exp_in_range] in Va, Vb.
    set (ez := Z.min ea eb).
    assert (Hsum : IZR (cond_Zopp sa (Z.pos (fst (shl_align ma ea ez))) -
                        cond_Zopp sb (Z.pos (fst (shl_align mb eb ez)))) * bpow ez =
                   sf_real (S754_finite sa ma ea) - sf_real (S754_finite sb mb eb)).
    { rewrite minus_IZR, Rmult_minus_distr_r.
      rewrite !IZR_cond_shl_align by lia. reflexivity. }
    rewrite <- Hsum. apply binary_normalize_error. lia.
Qed.

(** Multiplication: the exact product within a relative error of [2^-53], or
    within [2^-1075] (underflow), or an overflow. *)
Lemma mul_error (a b : pyfloat) :
  sf_is_finite a = true -> sf_is_finite b = true ->
  let r := SF64mul a b in
  (sf_is_finite r = true /\
   (Rabs (sf_real r - sf_real a * sf_real b) <= bpow (-53) * Rabs (sf_real a * sf_real b) \/
    Rabs (sf_real r - sf_real a * sf_real b) <= bpow (-1075))) \/
  (exists s, r = S754_infinity s).
Proof.
  intros Fa Fb r. unfold r, SF64mul, SFmul.
  destruct a as [sa|sa| |sa ma ea]; try discriminate;
  destruct b as [sb|sb| |sb mb eb]; try discriminate;
    try (left; split; [reflexivity|]; left;
         apply abs_zero_le; [cbn [sf_real]; ring | left; apply bpow_pos]).
  set (x := IZR (Z.pos (ma * mb)) * bpow (ea + eb)).
  assert (Hin : inbetween x (Z.pos (ma * mb)) (ea + eb) loc_Exact) by reflexivity.
  assert (Hx : 0 <= x).
  { apply Rmult_le_pos; [apply IZR_le; lia | left; apply bpow_pos]. }
  assert (Hab : sgn (xorb sa sb) * x =
                sf_real (S754_finite sa ma ea) * sf_real (S754_finite sb mb eb)).
  { unfold x. cbn [sf_real]. rewrite Pos2Z.inj_mul, mult_IZR, bpow_plus.
    destruct sa, sb; unfold sgn; cbn [xorb]; ring. }
  pose proof (binary_round_aux_error x (xorb sa sb) (Z.pos (ma * mb)) (ea + eb) loc_Exact ltac:(lia) Hin
                (or_introl eq_refl)) as B.
  cbv zeta in B. rewrite Hab in B.
  rewrite <- Hab, sgn_abs_mul, (Rabs_pos_eq x Hx), Hab.
  destruct B as [[Hf [B|[B _]]]|[B _]].
  - left. split; [exact Hf | left; exact B].
  - left. split; [exact Hf | right; exact B].
  - right. exact B.
Qed.


Lemma shiftl_pow2 (m s : Z) :
  (0 <= s)%Z ->
  match s with Z.pos _ => Z.shiftl m s | Z0 => m | Z.neg _ => 0%Z end = (m * 2 ^ s)%Z.
Proof.
  intros H. destruct s as [|p|p]; [lia| |lia].
  apply Z.shiftl_mul_pow2. lia.
Qed.

(** The quotient of [SFdiv_core_binary]: the location of the exact quotient
    on the grid of the computed one, at an exponent no larger than the
    canonical one. *)
Lemma div_core_spec (m1 m2 : positive) (e1 e2 : Z) :
  let '(q, e', l) := SFdiv_core_binary prec emax (Z.pos m1) e1 (Z.pos m2) e2 in
  (0 <= q)%Z /\
  inbetween (IZR (Z.pos m1) * bpow e1 / (IZR (Z.pos m2) * bpow e2)) q e' l /\
  (e' <= fexp prec emax (Zdigits2 q + e'))%Z.
Proof.
  unfold SFdiv_core_binary.
  set (d1 := Zdigits2 (Z.pos m1)). set (d2 := Zdigits2 (Z.pos m2)).
  set (e' := Z.min (fexp prec emax (d1 + e1 - (d2 + e2))) (e1 - e2)).
  assert (Hs : (0 <= e1 - e2 - e')%Z) by (unfold e'; lia).
  rewrite (shiftl_pow2 (Z.pos m1) _ Hs).
  set (s := (e1 - e2 - e')%Z) in *.
  set (M := (Z.pos m1 * 2 ^ s)%Z).
  assert (Hdm := Z_div_mod M (Z.pos m2) ltac:(lia)).
  destruct (Z.div_eucl M (Z.pos m2)) as [q r]. destruct Hdm as [HM Hr].
  assert (HM0 : (0 < M)%Z) by (unfold M; assert (0 < 2 ^ s)%Z by (apply Z.pow_pos_nonneg; lia); lia).
  assert (Hq : (0 <= q)%Z) by nia.
  split; [exact Hq|]. split.
  - set (x := IZR (Z.pos m1) * bpow e1 / (IZR (Z.pos m2) * bpow e2)).
    set (u := bpow e').
    assert (Hu : 0 < u) by apply bpow_pos.
    assert (Hm2 : 0 < IZR (Z.pos m2)) by (apply IZR_lt; lia).
    assert (Hx : x * IZR (Z.pos m2) = (IZR q * IZR (Z.pos m2) + IZR r) * u).
    { assert (HMR : IZR M = IZR (Z.pos m2) * IZR q + IZR r)
        by (rewrite HM, plus_IZR, mult_IZR; reflexivity).
      assert (HMR2 : IZR M = IZR (Z.pos m1) * bpow s)
        by (unfold M; rewrite mult_IZR, <- bpow_IZR by lia; reflexivity).
      transitivity (IZR M * u); [|rewrite HMR; ring].
      unfold x, u. rewrite HMR2.
      replace e1 with (e2 + (s + e'))%Z at 1 by (unfold s; lia).
      rewrite !bpow_plus. field. split; [apply Rgt_not_eq, bpow_pos | lra]. }
    assert (Hr0 : 0 <= IZR r) by (apply IZR_le; lia).
    assert (Hr1 : IZR r < IZR (Z.pos m2)) by (apply IZR_lt; lia).
    unfold new_location, new_location_even, new_location_odd.
    destruct (IntDef.Z.even (Z.pos m2)) eqn:Ev; cbv beta; intdef_to_z_tests;
      (destruct (Z.eqb_spec r 0) as [E|E];
       [subst r; cbn [inbetween];
        apply (Rmult_eq_reg_r (IZR (Z.pos m2))); [rewrite Hx; unfold u; ring | lra] |]);
      assert (Hrp : 0 < IZR r) by (apply IZR_lt; lia).
    + destruct (Z.compare_spec (2 * r) (Z.pos m2)) as [C|C|C];
        cbn [inbetween]; apply IZR_lt in C || apply (f_equal IZR) in C;
        rewrite mult_IZR in C.
      * apply (Rmult_eq_reg_r (IZR (Z.pos m2))); [|lra]. rewrite Hx, <- C. unfold u. field.
      * fold u; split; apply (Rmult_lt_reg_r (IZR (Z.pos m2))); nra.
      * fold u; split; apply (Rmult_lt_reg_r (IZR (Z.pos m2))); nra.
    + assert (Hodd : exists k, Z.pos m2 = (2 * k + 1)%Z).
      { exists (Z.pos m2 / 2)%Z. assert (Hm := Z.div_mod (Z.pos m2) 2 ltac:(lia)).
        change (IntDef.Z.even (Z.pos m2)) with (Z.even (Z.pos m2)) in Ev.
        rewrite Zmod_even, Ev in Hm. lia. }
      destruct Hodd as [k Hk].
      destruct (Z.compare_spec (2 * r + 1) (Z.pos m2)) as [C|C|C]; cbn [inbetween].
      * assert (C' : 2 * IZR r < IZR (Z.pos m2)).
        { rewrite <- mult_IZR. apply IZR_lt. lia. }
        fold u; split; apply (Rmult_lt_reg_r (IZR (Z.pos m2))); nra.
      * assert (C' : 2 * IZR r < IZR (Z.pos m2)).
        { rewrite <- mult_IZR. apply IZR_lt. lia. }
        fold u; split; apply (Rmult_lt_reg_r (IZR (Z.pos m2))); nra.
      * assert (C' : IZR (Z.pos m2) < 2 * IZR r).
        { rewrite <- mult_IZR. apply IZR_lt. lia. }
        fold u; split; apply (Rmult_lt_reg_r (IZR (Z.pos m2))); nra.
  - assert (Hd1 := Zdigits2_bounds (Z.pos m1) ltac:(lia)). fold d1 in Hd1.
    assert (Hd2 := Zdigits2_bounds (Z.pos m2) ltac:(lia)). fold d2 in Hd2.
    assert (Hd1p : (1 <= d1)%Z) by (unfold d1; cbn [Zdigits2]; lia).
    assert (Hd2p : (1 <= d2)%Z) by (unfold d2; cbn [Zdigits2]; lia).
    assert (Hk : (d1 + s - d2 <= Zdigits2 q)%Z).
    { destruct (Z_le_gt_dec (d1 + s - d2) 0) as [K|K];
        [assert (Hn := Zdigits2_nonneg q); lia|].
      assert (HM1 : (2 ^ (d1 + s - d2 - 1) * 2 ^ d2 <= M)%Z).
      { rewrite <- Z.pow_add_r by lia. unfold M.
        replace (d1 + s - d2 - 1 + d2)%Z with ((d1 - 1) + s)%Z by lia.
        rewrite Z.pow_add_r by lia.
        assert (0 < 2 ^ s)%Z by (apply Z.pow_pos_nonneg; lia). nia. }
      assert (Hq1 : (2 ^ (d1 + s - d2 - 1) <= q)%Z).
      { assert (0 < 2 ^ (d1 + s - d2 - 1))%Z by (apply Z.pow_pos_nonneg; lia).
        destruct (Z_le_gt_dec (2 ^ (d1 + s - d2 - 1)) q) as [G|G]; [exact G|].
        exfalso. nia. }
      assert (Hqb := Zdigits2_bounds q ltac:(assert (0 < 2 ^ (d1 + s - d2 - 1))%Z
                    by (apply Z.pow_pos_nonneg; lia); lia)).
      destruct (Z_le_gt_dec (d1 + s - d2) (Zdigits2 q)) as [G|G]; [exact G|].
      assert (2 ^ Zdigits2 q <= 2 ^ (d1 + s - d2 - 1))%Z
        by (apply Z.pow_le_mono_r; lia). lia. }
    unfold s in Hk. unfold e' in *. fexp_lia.
Qed.

(** Division of finite floats by a non-zero one: the exact quotient within a
    relative error of [2^-53], or within [2^-1075] (underflow), or an
    overflow, which needs a quotient at or beyond the largest float. *)
Lemma div_error (a b : pyfloat) :
  sf_is_finite a = true -> sf_is_finite b = true -> sf_real b <> 0 ->
  let r := SF64div a b in
  (sf_is_finite r = true /\
   (Rabs (sf_real r - sf_real a / sf_real b) <= bpow (-53) * Rabs (sf_real a / sf_real b) \/
    Rabs (sf_real r - sf_real a / sf_real b) <= bpow (-1075))) \/
  ((exists s, r = S754_infinity s) /\ bpow 1024 - bpow 970 <= Rabs (sf_real a / sf_real b)).
Proof.
  intros Fa Fb Nb r. unfold r, SF64div, SFdiv.
  destruct a as [sa|sa| |sa ma ea]; try discriminate;
  destruct b as [sb|sb| |sb mb eb]; try discriminate;
    try (exfalso; apply Nb; reflexivity).
  - left. split; [reflexivity|]. left.
    apply abs_zero_le; [cbn [sf_real]; unfold Rdiv; ring | left; apply bpow_pos].
  - pose proof (div_core_spec ma mb ea eb) as D.
    destruct (SFdiv_core_binary prec emax (Z.pos ma) ea (Z.pos mb) eb) as [[q e'] l].
    destruct D as (Hq & Hin & Hcan).
    set (x := IZR (Z.pos ma) * bpow ea / (IZR (Z.pos mb) * bpow eb)) in *.
    assert (Hma : 0 < IZR (Z.pos ma)) by (apply IZR_lt; lia).
    assert (Hmb : 0 < IZR (Z.pos mb)) by (apply IZR_lt; lia).
    assert (Hba := bpow_pos ea). assert (Hbb := bpow_pos eb).
    assert (Hx : 0 <= x).
    { unfold x. unfold Rdiv. apply Rmult_le_pos; [nra|].
      left. apply Rinv_0_lt_compat. nra. }
    assert (Hab : sgn (xorb sa sb) * x =
                  sf_real (S754_finite sa ma ea) / sf_real (S754_finite sb mb eb)).
    { unfold x. cbn [sf_real].
      destruct sa, sb; unfold sgn; cbn [xorb]; field; lra. }
    pose proof (binary_round_aux_error x (xorb sa sb) q e' l Hq Hin (or_intror Hcan)) as B.
    cbv zeta in B. rewrite Hab in B.
    rewrite <- Hab, sgn_abs_mul, (Rabs_pos_eq x Hx), Hab.
    destruct B as [[Hf [B|[B _]]]|[B [B'|[_ B']]]].
    + left. split; [exact Hf | left; exact B].
    + left. split; [exact Hf | right; exact B].
    + right. split; [exact B | exact B'].
    + lia.
Qed.


(** The root of [SFsqrt_core_binary]: the location of the exact square root
    on the grid of the computed one, at an exponent no larger than the
    canonical one. *)
Lemma sqrt_core_spec (m : positive) (e : Z) :
  let '(q, e', l) := SFsqrt_core_binary prec emax (Z.pos m) e in
  (0 <= q)%Z /\
  inbetween (sqrt (IZR (Z.pos m) * bpow e)) q e' l /\
  (e' <= fexp prec emax (Zdigits2 q + e'))%Z.
Proof.
  unfold SFsqrt_core_binary. intdef_to_z. intdef_to_z_tests.
  set (d := Zdigits2 (Z.pos m)).
  set (e' := Z.min (fexp prec emax (Z.div2 (d + e + 1))) (Z.div2 e)).
  assert (Hs : (0 <= e - 2 * e')%Z).
  { assert (e' <= Z.div2 e)%Z by (unfold e'; lia). rewrite Z.div2_div in H.
    assert (Hd2 := Z.mul_div_le e 2 ltac:(lia)). lia. }
  rewrite (shiftl_pow2 (Z.pos m) _ Hs).
  set (s := (e - 2 * e')%Z) in *.
  set (M := (Z.pos m * 2 ^ s)%Z).
  assert (HM0 : (0 < M)%Z)
    by (unfold M; assert (0 < 2 ^ s)%Z by (apply Z.pow_pos_nonneg; lia); lia).
  assert (Hsq := Z.sqrtrem_spec M ltac:(lia)).
  destruct (Z.sqrtrem M) as [q r]. destruct Hsq as [HM Hr].
  assert (Hq : (0 <= q)%Z) by nia.
  split; [exact Hq|]. split.
  - set (u := bpow e'). assert (Hu : 0 < u) by apply bpow_pos.
    set (X := sqrt (IZR M)).
    assert (HX0 : 0 <= X) by apply sqrt_pos.
    assert (HXX : X * X = IZR q * IZR q + IZR r).
    { unfold X. rewrite sqrt_sqrt by (apply IZR_le; lia).
      rewrite HM, plus_IZR, mult_IZR. reflexivity. }
    assert (HV : sqrt (IZR (Z.pos m) * bpow e) = X * u).
    { assert (E : IZR (Z.pos m) * bpow e = IZR M * (u * u)).
      { unfold M, u. rewrite mult_IZR, <- bpow_IZR by lia.
        replace e with (s + e' + e')%Z at 1 by (unfold s; lia).
        rewrite !bpow_plus. ring. }
      rewrite E, sqrt_mult by (first [apply IZR_le; lia | nra]).
      rewrite sqrt_square by lra. reflexivity. }
    rewrite HV.
    assert (Hq0 : 0 <= IZR q) by (apply IZR_le; lia).
    assert (Hr0 : 0 <= IZR r) by (apply IZR_le; lia).
    assert (Hr2 : IZR r <= 2 * IZR q) by (rewrite <- mult_IZR; apply IZR_le; lia).
    destruct (Z.eqb_spec r 0) as [E|E]; cbn [inbetween].
    + subst r. fold u.
      assert (X = IZR q).
      { unfold X. rewrite HM, Z.add_0_r, mult_IZR. apply sqrt_square. exact Hq0. }
      nra.
    + assert (Hrp : 1 <= IZR r) by (apply IZR_le; lia).
      assert (HqX : IZR q < X).
      { destruct (Rlt_or_le (IZR q) X) as [L|L]; [exact L|]. nra. }
      destruct (Z.leb_spec r q) as [L|L]; cbn [inbetween]; fold u.
      * assert (Lr : IZR r <= IZR q) by (apply IZR_le; exact L).
        assert (HXh : X < IZR q + / 2).
        { destruct (Rlt_or_le X (IZR q + / 2)) as [L'|L']; [exact L'|]. nra. }
        split; apply Rmult_lt_compat_r; lra.
      * assert (Lr : IZR q + 1 <= IZR r) by (rewrite <- plus_IZR; apply IZR_le; lia).
        assert (HXh : IZR q + / 2 < X).
        { destruct (Rlt_or_le (IZR q + / 2) X) as [L'|L']; [exact L'|]. nra. }
        assert (HX1 : X < IZR q + 1).
        { destruct (Rlt_or_le X (IZR q + 1)) as [L'|L']; [exact L'|]. nra. }
        split; apply Rmult_lt_compat_r; lra.
  - assert (Hd := Zdigits2_bounds (Z.pos m) ltac:(lia)). fold d in Hd.
    assert (Hdp : (1 <= d)%Z) by (unfold d; cbn [Zdigits2]; lia).
    set (t := Z.div2 (d + s + 1)).
    assert (Ht : (t <= Zdigits2 q)%Z).
    { destruct (Z_le_gt_dec t 0) as [K|K]; [assert (Hn := Zdigits2_nonneg q); lia|].
      assert (H2t : (2 * (t - 1) <= d - 1 + s)%Z) by (unfold t; rewrite Z.div2_div; pose proof (Z.mul_div_le (d + s + 1) 2 ltac:(lia)); lia).
      set (P := (2 ^ (t - 1))%Z).
      assert (HP0 : (0 < P)%Z) by (apply Z.pow_pos_nonneg; lia).
      assert (HPP : (P * P <= M)%Z).
      { unfold P, M. rewrite <- Z.pow_add_r by lia.
        transitivity (2 ^ (d - 1 + s))%Z; [apply Z.pow_le_mono_r; lia|].
        rewrite Z.pow_add_r by lia.
        apply Z.mul_le_mono_nonneg_r; [apply Z.pow_nonneg; lia | lia]. }
      assert (HqP : (P <= q)%Z).
      { destruct (Z_le_gt_dec P q) as [G|G]; [exact G|]. exfalso. nia. }
      assert (Hqb := Zdigits2_bounds q ltac:(lia)).
      destruct (Z_le_gt_dec t (Zdigits2 q)) as [G|G]; [exact G|].
      assert (2 ^ Zdigits2 q <= P)%Z by (apply Z.pow_le_mono_r; lia). lia. }
    assert (Et : Z.div2 (d + e + 1) = (t + e')%Z).
    { unfold t. rewrite !Z.div2_div.
      replace (d + e + 1)%Z with (d + s + 1 + e' * 2)%Z by (unfold s; lia).
      apply Z.div_add; lia. }
    unfold e' at 1. rewrite Et. fold e'.
    assert (e' <= fexp prec emax (t + e'))%Z by (unfold e' at 1; rewrite Et; lia).
    fexp_lia.
Qed.

(** A finite binary64 float is below [2^1024]. *)
Lemma valid_real_lt (m : positive) (e : Z) :
  sf_valid (S754_finite false m e) = true -> IZR (Z.pos m) * bpow e < bpow 1024.
Proof.
  intros V. destruct (valid_finite_bounds false m e V) as [Hm He].
  assert (H1 : IZR (Z.pos m) < bpow 53) by (apply IZR_lt_bpow; lia).
  assert (H2 : bpow e <= bpow 971) by (apply bpow_le; lia).
  assert (H0 : 0 < IZR (Z.pos m)) by (apply IZR_lt; lia).
  assert (H3 := bpow_pos e). assert (H4 := bpow_pos 53).
  replace 1024%Z with (53 + 971)%Z by reflexivity. rewrite bpow_plus. nra.
Qed.

(** The square root of a non-negative binary64 float: finite, within a
    relative error of [2^-53] or an absolute one of [2^-1075]. *)
Lemma sqrt_error (a : pyfloat) :
  sf_valid a = true -> sf_is_finite a = true -> 0 <= sf_real a ->
  let r := SF64sqrt a in
  sf_is_finite r = true /\
  (Rabs (sf_real r - sqrt (sf_real a)) <= bpow (-53) * sqrt (sf_real a) \/
   Rabs (sf_real r - sqrt (sf_real a)) <= bpow (-1075)).
Proof.
  intros Va Fa Pa r. unfold r, SF64sqrt, SFsqrt.
  destruct a as [sa|sa| |[] m e]; try discriminate.
  - split; [reflexivity|]. left. cbn [sf_real]. rewrite sqrt_0, Rminus_0_r, Rabs_R0.
    assert (Hb := bpow_pos (-53)). lra.
  - exfalso. cbn [sf_real sgn] in Pa.
    assert (0 < IZR (Z.pos m)) by (apply IZR_lt; lia). assert (Hb := bpow_pos e). nra.
  - assert (Hlt := valid_real_lt m e Va).
    assert (Ea : sf_real (S754_finite false m e) = IZR (Z.pos m) * bpow e)
      by (cbn [sf_real sgn]; ring).
    rewrite Ea. clear Ea Pa.
    pose proof (sqrt_core_spec m e) as D.
    destruct (SFsqrt_core_binary prec emax (Z.pos m) e) as [[q e'] l].
    destruct D as (Hq & Hin & Hcan).
    pose proof (binary_round_aux_error _ false q e' l Hq Hin (or_intror Hcan)) as B.
    cbv zeta in B. cbn [sgn] in B. rewrite Rmult_1_l in B.
    destruct B as [[Hf [B|[B _]]]|[_ [B|[_ B]]]].
    + split; [exact Hf | left; exact B].
    + split; [exact Hf | right; exact B].
    + exfalso.
      assert (Hs : sqrt (IZR (Z.pos m) * bpow e) < bpow 512).
      { rewrite <- (sqrt_square (bpow 512)) by (left; apply bpow_pos).
        apply sqrt_lt_1_alt. split.
        - apply Rmult_le_pos; [apply IZR_le; lia | left; apply bpow_pos].
        - rewrite <- bpow_plus. exact Hlt. }
      assert (H1 : bpow 512 < bpow 970) by (apply bpow_lt; lia).
      assert (H2 : bpow 971 <= bpow 1024) by (apply bpow_le; lia).
      assert (H3 : bpow 971 = 2 * bpow 970).
      { replace 971%Z with (1 + 970)%Z by reflexivity. rewrite bpow_plus, bpow_1. ring. }
      lra.
    + lia.
Qed.

End RoundingError.

Module CalculatorFacts.
Import Calculator RoundingFacts.

Lemma sf_nonneg_integer_integer y n :
  sf_nonneg_integer y = Some n -> sf_is_integer y = true.
Proof.
  destruct y as [s|s| |[] m e]; simpl; try discriminate; auto.
  destruct ((0 <=? e) || (Z.pos m mod 2 ^ (- e) =? 0)); congruence.
Qed.

Lemma sf_nonneg_integer_neg y :
  py_lt y fzero = true -> sf_nonneg_integer y = None.
Proof. destruct y as [s|s| |[] m e]; simpl; auto; discriminate. Qed.

Lemma pow_model_libm : libm_pow pow_model.
Proof.
  split.
  - intros x y Hx Hlt Hy Hint. unfold pow_model.
    destruct (sf_nonneg_integer y) eqn:E.
    + apply sf_nonneg_integer_integer in E. congruence.
    + destruct x as [s|s| |s m e]; try reflexivity; discriminate.
  - intros s y Hy Hlt. unfold pow_model.
    rewrite (sf_nonneg_integer_neg y Hlt), Hy, Hlt. reflexivity.
  - intros x y n r _ Hn Hr. unfold pow_model. rewrite Hn, Hr. reflexivity.
Qed.

(** C3: [divide(a, b)] raises the division-by-zero [ValueError], with its
    fixed message, exactly when [b == 0]; for every other [b] it returns the
    IEEE quotient [a / b]. *)
Theorem divide_fails_iff_zero (a b : pyfloat) :
  (divide a b = Raise (ValueError "Cannot divide by zero") <-> py_eq b fzero = true) /\
  (py_eq b fzero = false -> divide a b = Ok (SF64div a b)).
Proof.
  unfold divide, py_truediv. split.
  - destruct (py_eq b fzero); split; congruence.
  - intros ->. reflexivity.
Qed.

(** C4: [modulo(a, b)] raises the modulo-by-zero [ValueError] exactly when
    [b == 0]; for every other [b] it returns a float. *)
Theorem modulo_fails_iff_zero (a b : pyfloat) :
  (modulo a b = Raise (ValueError "Cannot perform modulo with zero divisor") <->
   py_eq b fzero = true) /\
  (py_eq b fzero = false -> exists r, modulo a b = Ok r).
Proof.
  unfold modulo, py_mod. split.
  - destruct (py_eq b fzero).
    + split; reflexivity.
    + split; [|discriminate].
      destruct (negb (py_eq (c_fmod a b) fzero));
        [destruct (xorb _ _)|]; discriminate.
  - intros ->. destruct (negb (py_eq (c_fmod a b) fzero));
      [destruct (xorb _ _)|]; eauto.
Qed.

(** C10: the zero guard of [divide] and [modulo] compares numerically, so the
    divisor [-0.0] is a zero divisor: both raise their division-by-zero
    [ValueError] for every dividend. *)
Theorem negative_zero_divisor (a : pyfloat) :
  divide a (S754_zero true) = Raise (ValueError "Cannot divide by zero") /\
  modulo a (S754_zero true) = Raise (ValueError "Cannot perform modulo with zero divisor").
Proof. split; reflexivity. Qed.

(** C8 (counterexample): [absolute(nan)] is NaN, which is neither [>= 0]
    nor [==] to [absolute(-nan)]. *)
Lemma absolute_nan_counterexample :
  absolute S754_nan = S754_nan /\
  py_ge (absolute S754_nan) fzero = false /\
  py_eq (absolute S754_nan) (absolute (SFopp S754_nan)) = false.
Proof. repeat split. Qed.

(** C8 (amended): [absolute] never fails; for every float [x] other than
    NaN, [absolute(x) >= 0] and [absolute(x) == absolute(-x)]. *)
Theorem absolute_nonneg_even (x : pyfloat) :
  sf_is_nan x = false ->
  py_ge (absolute x) fzero = true /\ py_eq (absolute x) (absolute (SFopp x)) = true.
Proof.
  destruct x as [s|s| |s m e]; simpl; try discriminate; intros _; split; try reflexivity.
  unfold py_eq, SFeqb, SFcompare. rewrite Z.compare_refl, Pos.compare_cont_refl.
  reflexivity.
Qed.

Lemma absolute_nonneg_even_witness :
  sf_is_nan (lit (-5)) = false /\
  (py_ge (absolute (lit (-5))) fzero = true /\
   py_eq (absolute (lit (-5))) (absolute (SFopp (lit (-5)))) = true).
Proof.
  split; [vm_compute; reflexivity|].
  apply absolute_nonneg_even. vm_compute. reflexivity.
Defined.

(** C9: [percentage(value, percent)] never fails and returns
    [(value * percent) / 100]; and the concrete scenarios of the tools hold,
    [power(2, 3) = 8.0] for a C library [pow] meeting [libm_pow]. *)
Theorem percentage_and_scenarios (c_pow : pyfloat -> pyfloat -> pyfloat) :
  libm_pow c_pow ->
  (forall value percent,
     percentage value percent = Ok (SF64div (SF64mul value percent) fhundred)) /\
  percentage (lit 200) (lit 15) = Ok (lit 30) /\
  add (lit 5) (lit 3) = lit 8 /\
  subtract (lit 10) (lit 4) = lit 6 /\
  multiply (lit 6) (lit 7) = lit 42 /\
  divide (lit 15) (lit 3) = Ok (lit 5) /\
  power c_pow (lit 2) (lit 3) = Ok (lit 8) /\
  modulo (lit 17) (lit 5) = Ok (lit 2) /\
  square_root (lit 16) = Ok (lit 4) /\
  absolute (lit (-5)) = lit 5.
Proof.
  intros Hpow.
  split; [intros; reflexivity|].
  repeat split; try (vm_compute; reflexivity).
  unfold power, math_pow.
  rewrite (pow_exact _ Hpow (lit 2) (lit 3) 3 (lit 8));
    vm_compute; reflexivity.
Qed.

Lemma percentage_and_scenarios_witness :
  libm_pow pow_model /\
  percentage (lit 200) (lit 15) = Ok (lit 30) /\
  power pow_model (lit 2) (lit 3) = Ok (lit 8).
Proof.
  split; [exact pow_model_libm|].
  destruct (percentage_and_scenarios pow_model pow_model_libm)
    as (_ & H1 & _ & _ & _ & _ & H2 & _).
  split; [exact H1 | exact H2].
Defined.

(** C2 (counterexample): [power(-8, 0.5)] raises [ValueError] for every C
    library [pow] meeting [libm_pow], and such a [pow] exists. *)
Lemma power_negative_base_counterexample :
  libm_pow pow_model /\
  (forall c_pow, libm_pow c_pow ->
     power c_pow (lit (-8)) (lit 0.5) = Raise (ValueError "math domain error")).
Proof.
  split; [exact pow_model_libm|].
  intros c_pow Hpow. unfold power, math_pow.
  rewrite (pow_neg_nonint _ Hpow); vm_compute; reflexivity.
Qed.

(** C2 (amended): [power] is [math.pow].  It never fails when an argument is
    infinite or NaN.  With finite arguments it raises [ValueError] when the
    base is negative and the exponent is not an integer, or when the base is
    zero and the exponent negative; for a nonzero base it raises
    [OverflowError] exactly when the C library's [pow] overflows; otherwise
    it returns the C library's [pow(base, exponent)]. *)
Theorem power_failures (c_pow : pyfloat -> pyfloat -> pyfloat) :
  libm_pow c_pow ->
  (forall x y, sf_is_finite x && sf_is_finite y = false ->
     exists r, power c_pow x y = Ok r) /\
  (forall x y, sf_is_finite x = true -> py_lt x fzero = true ->
     sf_is_finite y = true -> sf_is_integer y = false ->
     power c_pow x y = Raise (ValueError "math domain error")) /\
  (forall s y, sf_is_finite y = true -> py_lt y fzero = true ->
     power c_pow (S754_zero s) y = Raise (ValueError "math domain error")) /\
  (forall x y, sf_is_finite x = true -> sf_is_finite y = true -> py_eq x fzero = false ->
     (power c_pow x y = Raise (OverflowError "math range error") <->
      exists s, c_pow x y = S754_infinity s)) /\
  (forall x y r, sf_is_finite x = true -> sf_is_finite y = true ->
     (power c_pow x y = Ok r <-> c_pow x y = r /\ sf_is_finite r = true)).
Proof.
  intros Hpow. unfold power, math_pow.
  split; [|split; [|split; [|split]]].
  - intros x y H. rewrite H. simpl. eauto.
  - intros x y Hx Hlt Hy Hint. rewrite Hx, Hy. simpl.
    rewrite (pow_neg_nonint _ Hpow x y Hx Hlt Hy Hint). reflexivity.
  - intros s y Hy Hlt. rewrite Hy. simpl.
    rewrite (pow_zero_neg _ Hpow s y Hy Hlt). reflexivity.
  - intros x y Hx Hy Hz. rewrite Hx, Hy. simpl.
    destruct (c_pow x y) as [s'|s'| |s' m e]; try rewrite Hz;
      split; intros H; try discriminate; try (destruct H; discriminate); eauto.
  - intros x y r Hx Hy. rewrite Hx, Hy. simpl.
    destruct (c_pow x y) as [s'|s'| |s' m e]; try destruct (py_eq x fzero);
      split; intros H.
    all: first [ discriminate | destruct H as [? ?]; subst; discriminate
               | injection H as <-; auto | destruct H as [? ?]; subst; reflexivity ].
Qed.

Lemma power_failures_witness :
  libm_pow pow_model /\
  power pow_model (lit (-8)) (lit 0.5) = Raise (ValueError "math domain error") /\
  power pow_model (S754_zero false) (lit (-1)) = Raise (ValueError "math domain error").
Proof.
  split; [exact pow_model_libm|].
  destruct (power_failures pow_model pow_model_libm) as (_ & H2 & H3 & _).
  split.
  - apply H2; vm_compute; reflexivity.
  - apply H3; vm_compute; reflexivity.
Defined.


(** C1 (counterexample): [modulo(-7, 3)] is [2.0]: a nonzero remainder whose
    sign is that of the divisor, not of the dividend. *)
Lemma modulo_sign_counterexample :
  modulo (lit (-7)) (lit 3) = Ok (lit 2) /\
  py_eq (lit 2) fzero = false /\
  sf_sign (lit 2) <> sf_sign (lit (-7)).
Proof. vm_compute. repeat split; discriminate. Qed.

(** C6 (counterexample): with [a = b = 1e308], [add(a, b)] overflows to
    [inf], so [add(a, b) - b] is [inf], within no tolerance of [a]. Without
    overflow the error is relative to [|a| + |b|], not to [a]: with [a = 1]
    and [b = 1e17], [add(a, b) - b] is [0.0]. *)
Lemma add_round_trip_counterexample :
  sf_is_finite (lit 1e308) = true /\
  add (lit 1e308) (lit 1e308) = S754_infinity false /\
  SF64sub (add (lit 1e308) (lit 1e308)) (lit 1e308) = S754_infinity false /\
  (forall rel abs,
     ~ within_tol rel abs (SF64sub (add (lit 1e308) (lit 1e308)) (lit 1e308)) (lit 1e308)) /\
  subtract (add (lit 1) (lit 1e17)) (lit 1e17) = fzero.
Proof.
  split; [reflexivity|]. split; [vm_compute; reflexivity|].
  split; [vm_compute; reflexivity|]. split.
  - intros rel abs. vm_compute. intros [[H _]|[H _]]; discriminate.
  - vm_compute. reflexivity.
Qed.

(** C7 (counterexample): with [a = 1e308] and [b = 10], [multiply(a, b)]
    overflows to [inf] and [divide(inf, 10)] is [inf], within no tolerance
    of [a]. The product can also underflow: with [a = 5e-324] (the least
    positive float) and [b = 0.25], [multiply(a, b)] is [0.0], and so is
    [divide(0.0, 0.25)]. *)
Lemma multiply_divide_counterexample :
  sf_is_finite (lit 1e308) = true /\
  multiply (lit 1e308) (lit 10) = S754_infinity false /\
  divide (multiply (lit 1e308) (lit 10)) (lit 10) = Ok (S754_infinity false) /\
  (forall rel abs, ~ within_tol rel abs (S754_infinity false) (lit 1e308)) /\
  py_eq (lit 5e-324) fzero = false /\
  multiply (lit 5e-324) (lit 0.25) = fzero /\
  divide (multiply (lit 5e-324) (lit 0.25)) (lit 0.25) = Ok fzero.
Proof.
  split; [reflexivity|]. split; [vm_compute; reflexivity|].
  split; [vm_compute; reflexivity|]. split.
  - intros rel abs. vm_compute. intros [[H _]|[H _]]; discriminate.
  - vm_compute. repeat split.
Qed.

(** [fmod] of two finite floats is exact: a zero with the dividend's sign,
    or a float with the dividend's sign and a magnitude below the
    divisor's. *)
Lemma c_fmod_finite (sa : bool) (ma : positive) (ea : Z)
      (sb : bool) (mb : positive) (eb : Z) :
  sf_valid (S754_finite sa ma ea) = true -> sf_valid (S754_finite sb mb eb) = true ->
  c_fmod (S754_finite sa ma ea) (S754_finite sb mb eb) = S754_zero sa \/
  exists m' e', c_fmod (S754_finite sa ma ea) (S754_finite sb mb eb) = S754_finite sa m' e' /\
    Z.pos m' * 2 ^ (e' - Z.min e' eb) < Z.pos mb * 2 ^ (eb - Z.min e' eb).
Proof.
  intros Va Vb.
  destruct (valid_finite_bounds _ _ _ Va) as [Ma Ea].
  destruct (valid_finite_bounds _ _ _ Vb) as [Mb Eb].
  unfold c_fmod.
  set (ez := Z.min ea eb).
  destruct (shl_align_spec ma ea ez (Z.le_min_l _ _)) as [_ HA].
  destruct (shl_align_spec mb eb ez (Z.le_min_r _ _)) as [_ HB].
  set (A := fst (shl_align ma ea ez)) in *.
  set (B := fst (shl_align mb eb ez)) in *.
  assert (HR := Z.rem_bound_pos (Z.pos A) (Z.pos B) ltac:(lia) ltac:(lia)).
  assert (HR2 := Z.rem_le (Z.pos A) (Z.pos B) ltac:(lia) ltac:(lia)).
  destruct (Z.rem (Z.pos A) (Z.pos B)) as [|q|q] eqn:ER;
    [left; destruct sa; reflexivity | right | lia].
  assert (He1 : 0 <= ea - ez) by lia.
  assert (He2 : 0 <= eb - ez) by lia.
  assert (Hq : Z.pos q < 2 ^ 53).
  { destruct (Z.le_ge_cases ea eb) as [L|L].
    - assert (ez = ea) by lia. rewrite H, Z.sub_diag in HA. lia.
    - assert (ez = eb) by lia. rewrite H, Z.sub_diag in HB. lia. }
  assert (Hez : -1074 <= ez <= 971) by lia.
  destruct (binary_round_exact sa q ez Hq Hez) as (m' & e' & Er & Ee & Em).
  exists m', e'. split.
  - replace (binary_normalize prec emax (cond_Zopp sa (Z.pos q)) ez sa)
      with (binary_round prec emax sa q ez) by (destruct sa; reflexivity).
    exact Er.
  - set (k := Z.min e' eb).
    assert (Hk : k <= e') by apply Z.le_min_l.
    rewrite Em, <- Z.mul_assoc, <- Z.pow_add_r by lia.
    replace (Z.pos mb * 2 ^ (eb - k)) with (Z.pos B * 2 ^ (ez - k)).
    + replace (ez - e' + (e' - k)) with (ez - k) by lia.
      apply Z.mul_lt_mono_pos_r; [apply Z.pow_pos_nonneg; lia | lia].
    + rewrite HB, <- Z.mul_assoc, <- Z.pow_add_r by lia. f_equal. f_equal. lia.
Qed.

(** C1 (amended): for a finite dividend [a] and a divisor [b] that is
    neither zero nor NaN, [modulo(a, b)] returns a float, not NaN, whose sign
    is the sign of the divisor [b] (a zero result carries [b]'s sign): the
    remainder follows Python's floor-modulo convention. *)
Theorem modulo_sign_of_divisor (a b : pyfloat) :
  sf_valid a = true -> sf_valid b = true ->
  sf_is_finite a = true -> sf_is_nan b = false -> py_eq b fzero = false ->
  exists r, modulo a b = Ok r /\ sf_is_nan r = false /\ sf_sign r = sf_sign b.
Proof.
  intros Va Vb Fa Nb Zb. unfold modulo, py_mod. rewrite Zb.
  destruct a as [sa|sa| |sa ma ea]; try discriminate;
    destruct b as [sb|sb| |sb mb eb]; try discriminate.
  - eexists; split; [reflexivity|]; auto.
  - eexists; split; [reflexivity|]; auto.
  - cbn [c_fmod]. unfold py_eq, py_lt. cbn [SFeqb SFltb SFcompare fzero].
    destruct sa, sb; cbn; eexists; split; try reflexivity; auto.
  - destruct (c_fmod_finite sa ma ea sb mb eb Va Vb) as [E | (m' & e' & E & Hlt)];
      rewrite E.
    + eexists; split; [reflexivity|]; auto.
    + unfold py_eq, py_lt. cbn [SFeqb SFltb SFcompare fzero negb].
      destruct sa, sb; cbn [xorb]; eexists; (split; [reflexivity|]); auto;
        apply add_opposite_sign; auto; discriminate.
Qed.

Lemma modulo_sign_of_divisor_witness :
  exists r, modulo (lit 5.5) (lit (-2)) = Ok r /\ sf_is_nan r = false /\
            sf_sign r = sf_sign (lit (-2)).
Proof.
  apply modulo_sign_of_divisor; vm_compute; reflexivity.
Defined.

End CalculatorFacts.


(** ** Accuracy of the floating-point tools *)

Module CalculatorRealFacts.
Import Calculator RoundingFacts RealValue RoundingError.
Import Stdlib.Reals.Reals Stdlib.micromega.Psatz.
Local Open Scope R_scope.

Lemma bpow_m51 : bpow (-51) = 4 * bpow (-53).
Proof.
  replace (-51)%Z with (2 + -53)%Z by reflexivity.
  rewrite bpow_plus, (bpow_IZR 2) by lia. reflexivity.
Qed.

Lemma bpow_m53_le_1 : 0 < bpow (-53) <= 1.
Proof.
  split; [apply bpow_pos|]. replace 1 with (bpow 0) by reflexivity. apply bpow_le. lia.
Qed.

Lemma Rabs_le_both (x c : R) : Rabs x <= c -> - c <= x <= c.
Proof. unfold Rabs. destruct (Rcase_abs x); intros; lra. Qed.

(** A value within [eps * s] of [s = sqrt x] squares to within
    [(2 eps + eps^2) x] of [x]. *)
Lemma square_error (r s x eps : R) :
  0 <= s -> s * s = x -> 0 <= eps ->
  Rabs (r - s) <= eps * s -> Rabs (r * r - x) <= (2 * eps + eps * eps) * x.
Proof.
  intros Hs Hx He H. subst x. apply Rabs_le_both in H.
  set (d := r - s) in H. replace r with (s + d) by (unfold d; ring).
  assert (Hd : d * d <= (eps * s) * (eps * s)) by nra.
  assert (Hds : - (eps * s) * s <= d * s <= (eps * s) * s) by (split; nra).
  apply Rabs_le. split; nra.
Qed.

(** [p / b] is within [eps * |a|] of [a] when [p] is within [eps * |a b|] of
    [a b]. *)
Lemma quotient_close (p a b eps : R) :
  b <> 0 -> Rabs (p - a * b) <= eps * Rabs (a * b) -> Rabs (p / b - a) <= eps * Rabs a.
Proof.
  intros Hb H. assert (Hb' : 0 < Rabs b) by (apply Rabs_pos_lt; exact Hb).
  apply (Rmult_le_reg_r (Rabs b)); [exact Hb'|]. rewrite <- Rabs_mult.
  replace ((p / b - a) * b) with (p - a * b) by (field; exact Hb).
  rewrite Rabs_mult in H. lra.
Qed.

Lemma finite_real_nonzero (s : bool) (m : positive) (e : Z) :
  sf_real (S754_finite s m e) <> 0.
Proof.
  cbn [sf_real]. assert (0 < IZR (Z.pos m)) by (apply IZR_lt; lia).
  assert (Hb := bpow_pos e). destruct s; cbn [sgn]; nra.
Qed.

(** A finite binary64 float below the largest one, [(2^53 - 1) 2^971], in
    magnitude is at most its predecessor [(2^53 - 2) 2^971]. *)
Lemma below_max_le (a : pyfloat) :
  sf_valid a = true -> Rabs (sf_real a) < bpow 1024 - bpow 971 ->
  Rabs (sf_real a) <= 9007199254740990 * bpow 971.
Proof.
  intros V L. assert (Hb := bpow_pos 971).
  assert (E : bpow 1024 = 9007199254740992 * bpow 971).
  { replace 1024%Z with (53 + 971)%Z by reflexivity. rewrite bpow_plus, bpow_53. reflexivity. }
  rewrite E in L.
  destruct a as [s|s| |s m e]; cbn [sf_real] in *; try (rewrite Rabs_R0; lra).
  destruct (valid_finite_bounds s m e V) as [Hm He].
  rewrite Rmult_assoc, sgn_abs_mul, Rabs_mult in *.
  rewrite (Rabs_pos_eq (IZR _)) in * by (apply IZR_le; lia).
  rewrite (Rabs_pos_eq (bpow e)) in * by (left; apply bpow_pos).
  assert (H0 : 0 < IZR (Z.pos m)) by (apply IZR_lt; lia).
  destruct (Z.eq_dec e 971) as [->|Ne].
  - assert (Hl : IZR (Z.pos m) < 9007199254740991) by nra.
    apply lt_IZR in Hl. assert (IZR (Z.pos m) <= 9007199254740990) by (apply IZR_le; lia).
    nra.
  - assert (H1 : IZR (Z.pos m) <= 9007199254740991) by (apply IZR_le; lia).
    assert (H2 : bpow e * 2 <= bpow 971).
    { replace 971%Z with ((e + 1) + (970 - e))%Z by lia. rewrite !bpow_plus, bpow_1.
      assert (1 <= bpow (970 - e)) by (replace 1 with (bpow 0) by reflexivity;
                                       apply bpow_le; lia).
      assert (Hbe := bpow_pos e). nra. }
    assert (Hbe := bpow_pos e). nra.
Qed.

(** *** [square_root] *)

Lemma square_root_raise (x : pyfloat) :
  py_lt x fzero = true ->
  square_root x = Raise (ValueError "Cannot calculate square root of a negative number").
Proof. intros H. unfold square_root. rewrite H. reflexivity. Qed.

Lemma ge_zero_not_lt (x : pyfloat) : py_ge x fzero = true -> py_lt x fzero = false.
Proof. destruct x as [[]|[]| |[] m e]; vm_compute; congruence. Qed.

Lemma ge_zero_real (x : pyfloat) : py_ge x fzero = true -> 0 <= sf_real x.
Proof.
  destruct x as [s|s| |[] m e]; intros G; cbn [sf_real]; try lra;
    [vm_compute in G; discriminate G|].
  cbn [sgn]. assert (0 < IZR (Z.pos m)) by (apply IZR_lt; lia).
  assert (Hb := bpow_pos e). nra.
Qed.

Lemma sqrt_pos_sign (m : positive) (e : Z) :
  sf_sign (SF64sqrt (S754_finite false m e)) = false.
Proof.
  unfold SF64sqrt, SFsqrt. pose proof (sqrt_core_spec m e) as D.
  destruct (SFsqrt_core_binary prec emax (Z.pos m) e) as [[q e'] l].
  destruct D as [Hq _]. exact (proj2 (binary_round_aux_sign prec emax false q e' l Hq)).
Qed.

Lemma square_root_ok (x : pyfloat) :
  sf_valid x = true -> py_lt x fzero = false -> square_root x = Ok (SF64sqrt x).
Proof.
  intros V H. unfold square_root, math_sqrt. rewrite H.
  destruct x as [s|[]| |[] m e]; try reflexivity; try (vm_compute in H; discriminate H).
  assert (P : 0 <= sf_real (S754_finite false m e)) by (apply ge_zero_real; reflexivity).
  pose proof (proj1 (sqrt_error _ V eq_refl P)) as F.
  destruct (SF64sqrt (S754_finite false m e)); try discriminate F; reflexivity.
Qed.

Lemma sqrt_ge_zero (x : pyfloat) :
  sf_valid x = true -> py_ge x fzero = true -> py_ge (SF64sqrt x) fzero = true.
Proof.
  intros V G. destruct x as [[]|[]| |[] m e]; try reflexivity;
    try (vm_compute in G; discriminate G).
  assert (P : 0 <= sf_real (S754_finite false m e)) by (apply ge_zero_real; reflexivity).
  pose proof (proj1 (sqrt_error _ V eq_refl P)) as F.
  pose proof (sqrt_pos_sign m e) as S.
  destruct (SF64sqrt (S754_finite false m e)) as [s'|s'| |s' m' e'];
    try discriminate F; cbn [sf_sign] in S; subst s'; reflexivity.
Qed.

(** The square root of a finite float [x >= 0] is within a relative error of
    [2^-53]: the absolute error [2^-1075] of a subnormal result is below it,
    as [sqrt x >= 2^-537]. *)
Lemma sqrt_relative (x : pyfloat) :
  sf_valid x = true -> sf_is_finite x = true -> py_ge x fzero = true ->
  sf_is_finite (SF64sqrt x) = true /\
  Rabs (sf_real (SF64sqrt x) - sqrt (sf_real x)) <= bpow (-53) * sqrt (sf_real x).
Proof.
  intros V F G. assert (P := ge_zero_real x G).
  destruct (sqrt_error x V F P) as [Fr B]. split; [exact Fr|].
  destruct B as [B|B]; [exact B|].
  destruct x as [s|s| |[] m e]; try discriminate F;
    [| vm_compute in G; discriminate G |].
  - change (SF64sqrt (S754_zero s)) with (S754_zero s). cbn [sf_real].
    rewrite sqrt_0, Rminus_0_r, Rabs_R0, Rmult_0_r. lra.
  - apply valid_finite_exp in V.
    assert (Hx : bpow (-537) * bpow (-537) <= sf_real (S754_finite false m e)).
    { cbn [sf_real sgn]. rewrite Rmult_1_l, <- bpow_plus.
      assert (1 <= IZR (Z.pos m)) by (apply IZR_le; lia).
      assert (bpow (-1074) <= bpow e) by (apply bpow_le; lia).
      assert (Hb := bpow_pos (-1074)). replace (-537 + -537)%Z with (-1074)%Z by reflexivity.
      nra. }
    assert (Hs : bpow (-537) <= sqrt (sf_real (S754_finite false m e))).
    { rewrite <- (sqrt_square (bpow (-537))) by (left; apply bpow_pos).
      apply sqrt_le_1_alt. exact Hx. }
    assert (E : bpow (-1075) = bpow (-53) * bpow (-1022)).
    { rewrite <- bpow_plus. reflexivity. }
    assert (L : bpow (-1022) <= bpow (-537)) by (apply bpow_le; lia).
    assert (Hb := bpow_pos (-53)). nra.
Qed.

Lemma SF64add_comm (a b : pyfloat) : SF64add a b = SF64add b a.
Proof.
  unfold SF64add, SFadd.
  destruct a as [[]|[]| |sa ma ea], b as [[]|[]| |sb mb eb]; try reflexivity.
  rewrite (Z.min_comm ea eb), Z.add_comm. reflexivity.
Qed.

(** A product of finite floats, at least [2^-1022] in magnitude, that does
    not overflow is within a relative error of [2^-53]. *)
Lemma mul_relative (a b : pyfloat) :
  sf_is_finite a = true -> sf_is_finite b = true ->
  sf_is_finite (SF64mul a b) = true ->
  bpow (-1022) <= Rabs (sf_real a * sf_real b) ->
  Rabs (sf_real (SF64mul a b) - sf_real a * sf_real b) <=
    bpow (-53) * Rabs (sf_real a * sf_real b).
Proof.
  intros Fa Fb Fp L.
  destruct (mul_error a b Fa Fb) as [[_ [M|M]]|[s E]].
  - exact M.
  - assert (E : bpow (-1075) = bpow (-53) * bpow (-1022)) by (rewrite <- bpow_plus; reflexivity).
    assert (Hb := bpow_pos (-53)). nra.
  - rewrite E in Fp. discriminate Fp.
Qed.

(** C5: [square_root(x)] raises the [ValueError] of a negative number exactly
    when [x < 0]. For [x >= 0] it returns a float [r >= 0]: [inf] for
    [x = inf], and for a finite [x] a finite [r] within a relative error of
    [2^-53] of the exact square root, whose square is within a relative
    error of [2^-51] of [x]. *)
Theorem square_root_spec (x : pyfloat) :
  sf_valid x = true ->
  ((exists err, square_root x = Raise err) <-> py_lt x fzero = true) /\
  (py_lt x fzero = true ->
   square_root x = Raise (ValueError "Cannot calculate square root of a negative number")) /\
  (py_ge x fzero = true ->
   exists r, square_root x = Ok r /\ py_ge r fzero = true /\
     (x = S754_infinity false -> r = S754_infinity false) /\
     (sf_is_finite x = true ->
      sf_is_finite r = true /\
      Rabs (sf_real r - sqrt (sf_real x)) <= bpow (-53) * sqrt (sf_real x) /\
      Rabs (sf_real r * sf_real r - sf_real x) <= bpow (-51) * sf_real x)).
Proof.
  intros V. split; [|split].
  - split.
    + intros [err E]. destruct (py_lt x fzero) eqn:L; [reflexivity|].
      rewrite (square_root_ok x V L) in E. discriminate E.
    + intros L. eexists. apply square_root_raise. exact L.
  - apply square_root_raise.
  - intros G. exists (SF64sqrt x).
    split; [apply square_root_ok; [exact V | apply ge_zero_not_lt; exact G]|].
    split; [apply sqrt_ge_zero; assumption|].
    split; [intros ->; reflexivity|].
    intros F. destruct (sqrt_relative x V F G) as [Fr B].
    split; [exact Fr|]. split; [exact B|].
    assert (P := ge_zero_real x G). assert (Eps := bpow_m53_le_1).
    pose proof (square_error (sf_real (SF64sqrt x)) (sqrt (sf_real x)) (sf_real x)
                  (bpow (-53)) (sqrt_pos _) (sqrt_sqrt _ P) ltac:(lra) B) as S.
    assert (Q : bpow (-53) * bpow (-53) * sf_real x <= 2 * bpow (-53) * sf_real x)
      by (apply Rmult_le_compat_r; [exact P | nra]).
    rewrite bpow_m51. lra.
Qed.

Lemma square_root_spec_witness :
  ((exists err, square_root (lit 16) = Raise err) <-> py_lt (lit 16) fzero = true) /\
  (py_lt (lit 16) fzero = true ->
   square_root (lit 16) =
     Raise (ValueError "Cannot calculate square root of a negative number")) /\
  (py_ge (lit 16) fzero = true ->
   exists r, square_root (lit 16) = Ok r /\ py_ge r fzero = true /\
     (lit 16 = S754_infinity false -> r = S754_infinity false) /\
     (sf_is_finite (lit 16) = true ->
      sf_is_finite r = true /\
      Rabs (sf_real r - sqrt (sf_real (lit 16))) <= bpow (-53) * sqrt (sf_real (lit 16)) /\
      Rabs (sf_real r * sf_real r - sf_real (lit 16)) <= bpow (-51) * sf_real (lit 16))).
Proof. apply square_root_spec. vm_compute. reflexivity. Defined.

(** C6: [add] is commutative, and when neither [add(a, b)] nor
    [add(a, b) - b] overflows, [add(a, b) - b] is within [2^-51 (|a| + |b|)]
    of [a]: the error is relative to [|a| + |b|], not to [a]. When
    [add(a, b)] overflows to an infinity, [add(a, b) - b] is that
    infinity. *)
Theorem add_commutative_round_trip (a b : pyfloat) :
  sf_valid a = true -> sf_valid b = true ->
  sf_is_finite a = true -> sf_is_finite b = true ->
  add a b = add b a /\
  (sf_is_finite (add a b) = true -> sf_is_finite (subtract (add a b) b) = true ->
   Rabs (sf_real (subtract (add a b) b) - sf_real a) <=
     bpow (-51) * (Rabs (sf_real a) + Rabs (sf_real b))) /\
  (forall s, add a b = S754_infinity s -> subtract (add a b) b = S754_infinity s).
Proof.
  intros Va Vb Fa Fb. split; [apply SF64add_comm|]. split;
    [| intros s E; rewrite E; destruct b as [sb|sb| |sb mb eb]; try discriminate Fb;
       reflexivity].
  intros Fs Fd.
  unfold add, subtract in *.
  assert (Ea := valid_exp_in_range a Va). assert (Eb := valid_exp_in_range b Vb).
  destruct (add_error a b Ea Eb Fa Fb) as [[_ A]|[s E]];
    [| rewrite E in Fs; discriminate Fs].
  destruct (sub_error (SF64add a b) b (add_exp a b Ea Eb) Eb Fs Fb) as [[_ D]|[s E]];
    [| rewrite E in Fd; discriminate Fd].
  set (S := sf_real (SF64add a b)) in *.
  set (Dv := sf_real (SF64sub (SF64add a b) b)) in *.
  set (x := sf_real a) in *. set (y := sf_real b) in *.
  assert (Eps := bpow_m53_le_1). set (eps := bpow (-53)) in *.
  rewrite bpow_m51. fold eps.
  assert (T1 : Rabs (x + y) <= Rabs x + Rabs y) by apply Rabs_triang.
  assert (T2 : Rabs (S - y) <= Rabs (S - (x + y)) + Rabs x).
  { replace (S - y) with ((S - (x + y)) + x) by ring. apply Rabs_triang. }
  assert (T3 : Rabs (Dv - x) <= Rabs (Dv - (S - y)) + Rabs (S - (x + y))).
  { replace (Dv - x) with ((Dv - (S - y)) + (S - (x + y))) by ring. apply Rabs_triang. }
  assert (T4 : eps * Rabs (S - y) <= eps * (eps * Rabs (x + y) + Rabs x))
    by (apply Rmult_le_compat_l; lra).
  assert (T5 : eps * (eps * Rabs (x + y)) <= eps * Rabs (x + y))
    by (apply Rmult_le_compat_l; [lra|]; assert (Hr := Rabs_pos (x + y)); nra).
  assert (T6 : eps * Rabs (x + y) <= eps * (Rabs x + Rabs y))
    by (apply Rmult_le_compat_l; lra).
  assert (T7 : eps * Rabs x <= eps * (Rabs x + Rabs y))
    by (apply Rmult_le_compat_l; [lra|]; assert (Hr := Rabs_pos y); lra).
  assert (T8 : 0 <= eps * (Rabs x + Rabs y))
    by (assert (Hx := Rabs_pos x); assert (Hy := Rabs_pos y); nra).
  lra.
Qed.

Lemma add_commutative_round_trip_witness :
  add (lit 1) (lit 2) = add (lit 2) (lit 1) /\
  (sf_is_finite (add (lit 1) (lit 2)) = true ->
   sf_is_finite (subtract (add (lit 1) (lit 2)) (lit 2)) = true ->
   Rabs (sf_real (subtract (add (lit 1) (lit 2)) (lit 2)) - sf_real (lit 1)) <=
     bpow (-51) * (Rabs (sf_real (lit 1)) + Rabs (sf_real (lit 2)))) /\
  (forall s, add (lit 1) (lit 2) = S754_infinity s ->
   subtract (add (lit 1) (lit 2)) (lit 2) = S754_infinity s).
Proof. apply add_commutative_round_trip; vm_compute; reflexivity. Defined.

(** The mantissa [(2^53 - 1) n] of a product by the largest float's mantissa
    is rounded down to 53 digits: what lies below its last kept digit is less
    than half a unit. *)
Lemma max_mul_round_down (n ms d : Z) :
  (0 < n < 2 ^ 53)%Z -> d = (Zdigits2 ((2 ^ 53 - 1) * n) - 53)%Z -> (0 < d)%Z ->
  (ms * 2 ^ d <= (2 ^ 53 - 1) * n < (ms + 1) * 2 ^ d)%Z ->
  (2 * ((2 ^ 53 - 1) * n) < (2 * ms + 1) * 2 ^ d)%Z.
Proof.
  intros Hn Hd Hd0 [B1 B2].
  assert (Hb := Zdigits2_bounds n (proj1 Hn)). set (D := Zdigits2 n) in *.
  assert (HD : (1 <= D <= 53)%Z).
  { assert (H0 := Zdigits2_nonneg n). fold D in H0.
    destruct (Z.eq_dec D 0) as [E|E]; [rewrite E in Hb; simpl in Hb; lia|].
    split; [lia|]. apply Zdigits2_le; lia. }
  set (P := (2 ^ (D - 1))%Z) in *.
  assert (HP : (0 < P)%Z) by (apply Z.pow_pos_nonneg; lia).
  assert (E2 : (2 ^ D = 2 * P)%Z).
  { unfold P. rewrite <- Z.pow_succ_r by lia. f_equal. lia. }
  rewrite E2 in Hb.
  set (M := (2 ^ 53 - 1)%Z) in *.
  assert (HM : M = 9007199254740991%Z) by reflexivity.
  destruct (Z.eq_dec n P) as [En|En].
  - assert (Dg : Zdigits2 (M * n) = (D + 52)%Z).
    { apply Zdigits2_unique.
      replace (D + 52 - 1)%Z with ((D - 1) + 52)%Z by lia.
      replace (D + 52)%Z with ((D - 1) + 53)%Z by lia.
      rewrite !Z.pow_add_r by lia. fold P. rewrite En.
      change (2 ^ 52)%Z with 4503599627370496%Z. change (2 ^ 53)%Z with 9007199254740992%Z.
      lia. }
    rewrite Dg in Hd. replace d with (D - 1)%Z in * by lia. fold P in B1, B2 |- *.
    rewrite En in *.
    assert (ms <= M)%Z by (apply (Z.mul_le_mono_pos_r _ _ P HP); lia).
    assert (M < ms + 1)%Z by (apply (Z.mul_lt_mono_pos_r P); lia).
    replace ms with M by lia. nia.
  - assert (Dg : Zdigits2 (M * n) = (D + 53)%Z).
    { apply Zdigits2_unique.
      replace (D + 53 - 1)%Z with ((D - 1) + 53)%Z by lia.
      replace (D + 53)%Z with ((D - 1) + 54)%Z by lia.
      rewrite !Z.pow_add_r by lia. fold P.
      change (2 ^ 53)%Z with 9007199254740992%Z. change (2 ^ 54)%Z with 18014398509481984%Z.
      rewrite HM. lia. }
    rewrite Dg in Hd. replace d with D in * by lia. rewrite E2 in B1, B2 |- *.
    set (K := (2 ^ (53 - D))%Z).
    assert (EK : (K * (2 * P) = 2 ^ 53)%Z).
    { unfold K. rewrite <- E2, <- Z.pow_add_r by lia. f_equal. lia. }
    assert (EN : (M * n = (n * K) * (2 * P) - n)%Z).
    { unfold M. rewrite <- Z.mul_assoc, EK. ring. }
    rewrite EN in B1, B2 |- *. set (Q := (n * K)%Z) in *.
    assert (ms < Q)%Z by (apply (Z.mul_lt_mono_pos_r (2 * P)); lia).
    assert (Q - 1 < ms + 1)%Z by (apply (Z.mul_lt_mono_pos_r (2 * P)); lia).
    replace ms with (Q - 1)%Z by lia. lia.
Qed.

(** When the real [x] lies below the midpoint after the first shift,
    [binary_round_aux] rounds it down: a finite result is at most [x] in
    magnitude. *)
Lemma binary_round_aux_le (x : R) (s : bool) (m e : Z) (l : location) :
  (0 <= m)%Z -> inbetween x m e l ->
  (l = loc_Exact \/ (e <= fexp prec emax (Zdigits2 m + e))%Z) ->
  x < (IZR (shr_m (fst (shr_fexp prec emax m e l))) + / 2) *
        bpow (snd (shr_fexp prec emax m e l)) ->
  sf_is_finite (binary_round_aux prec emax s m e l) = true ->
  Rabs (sf_real (binary_round_aux prec emax s m e l)) <= x.
Proof.
  intros Hm H Hpre Hx. unfold binary_round_aux.
  pose proof (round_step1 x m e l Hm H Hpre) as S1. cbv zeta in S1.
  destruct (shr_fexp prec emax m e l) as [r1 e1] eqn:E1. cbn [fst snd] in S1, Hx.
  destruct S1 as (Hms & H1 & Hc & _).
  set (ms := shr_m r1) in *. set (l1 := loc_of_shr_record r1) in *.
  pose proof (rne_spec x ms e1 l1 H1) as R. cbv zeta in R.
  destruct R as (Rm & _ & _ & R4).
  pose proof (round_step3 ms e1 l1 Hms Hc) as S3. cbv zeta in S3.
  remember (round_nearest_even ms l1) as m1 eqn:Em1.
  assert (Eq : m1 = ms).
  { destruct Rm as [Rm|[Rm _]]; [exact Rm|]. specialize (R4 Rm). lra. }
  assert (Hb := inbetween_bounds _ _ _ _ H1).
  assert (Hu := bpow_pos e1).
  assert (Hv : IZR m1 * bpow e1 <= x) by (rewrite Eq; lra).
  assert (Hx0 : 0 <= x) by (assert (0 <= IZR ms) by (apply IZR_le; lia); nra).
  destruct S3 as [S3|[E53 S3]]; rewrite S3; cbn [shr_m shr_record_of_loc].
  - destruct m1 as [|p|p]; [| |lia].
    + intros _. cbn [sf_real]. rewrite Rabs_R0. exact Hx0.
    + destruct (e1 <=? emax - prec)%Z; [|discriminate].
      intros _. cbn [sf_real]. rewrite Rmult_assoc, sgn_abs_mul, Rabs_pos_eq; [exact Hv|].
      apply Rmult_le_pos; [apply IZR_le; lia | lra].
  - cbn [shr_m]. change (2 ^ 52)%Z with 4503599627370496%Z.
    destruct (e1 + 1 <=? emax - prec)%Z; [|discriminate].
    intros _. cbn [sf_real]. rewrite Rmult_assoc, sgn_abs_mul.
    replace (IZR 4503599627370496 * bpow (e1 + 1)) with (IZR m1 * bpow e1)
      by (rewrite E53, bpow_plus, bpow_1; change (2 ^ 53)%Z with 9007199254740992%Z; ring).
    rewrite Rabs_pos_eq; [exact Hv|]. rewrite E53. apply Rmult_le_pos; [apply IZR_le; lia | lra].
Qed.

(** A finite product by the largest float [(2^53 - 1) 2^971], of either
    sign, is rounded down in magnitude: it is at most the exact product. *)
Lemma mul_max_le (sa sb : bool) (mb : positive) (eb : Z) :
  sf_valid (S754_finite sb mb eb) = true ->
  let a := S754_finite sa 9007199254740991 971 in
  let b := S754_finite sb mb eb in
  sf_is_finite (SF64mul a b) = true ->
  Rabs (sf_real (SF64mul a b)) <= Rabs (sf_real a * sf_real b).
Proof.
  intros Vb a b. unfold a, b, SF64mul, SFmul.
  destruct (valid_finite_bounds _ _ _ Vb) as [Hmb Heb].
  set (N := Z.pos (9007199254740991 * mb)).
  set (e := (971 + eb)%Z).
  set (x := IZR N * bpow e).
  assert (Hin : inbetween x N e loc_Exact) by reflexivity.
  assert (Hab : Rabs (sf_real (S754_finite sa 9007199254740991 971) *
                      sf_real (S754_finite sb mb eb)) = x).
  { unfold x, N, e. cbn [sf_real]. rewrite Pos2Z.inj_mul, mult_IZR, bpow_plus.
    replace (sgn sa * IZR (Z.pos 9007199254740991) * bpow 971 *
             (sgn sb * IZR (Z.pos mb) * bpow eb))
      with (sgn (xorb sa sb) * (IZR (Z.pos 9007199254740991) * IZR (Z.pos mb) *
                               (bpow 971 * bpow eb)))
      by (destruct sa, sb; unfold sgn; cbn [xorb]; ring).
    rewrite sgn_abs_mul. apply Rabs_pos_eq.
    apply Rmult_le_pos; [apply Rmult_le_pos; apply IZR_le; lia|].
    left. rewrite <- bpow_plus. apply bpow_pos. }
  rewrite Hab.
  assert (HN : (N = (2 ^ 53 - 1) * Z.pos mb)%Z) by (unfold N; rewrite Pos2Z.inj_mul; reflexivity).
  assert (HdN := Zdigits2_bounds N ltac:(unfold N; lia)).
  assert (Hd53 : (53 <= Zdigits2 N)%Z).
  { destruct (Z.le_gt_cases 53 (Zdigits2 N)) as [G|G]; [exact G|].
    assert (2 ^ Zdigits2 N <= 2 ^ 52)%Z by (apply Z.pow_le_mono_r; lia). lia. }
  apply binary_round_aux_le; [unfold N; lia | exact Hin | left; reflexivity |].
  pose proof (round_step1 x N e loc_Exact ltac:(unfold N; lia) Hin (or_introl eq_refl)) as S1.
  cbv zeta in S1.
  destruct (shr_fexp prec emax N e loc_Exact) as [r1 e1] eqn:E1. cbn [fst snd] in S1 |- *.
  destruct S1 as (Hms & H1 & _ & Hlast).
  set (ms := shr_m r1) in *.
  assert (Hb := inbetween_bounds _ _ _ _ H1).
  assert (Hu := bpow_pos e).
  destruct Hlast as [(-> & _ & ->)|(Hlt & Ee1 & _)].
  - unfold x. assert (Hu' := bpow_pos e). nra.
  - assert (Ed : (e1 = e + (Zdigits2 N - 53))%Z) by (rewrite Ee1; unfold e in *; fexp_lia).
    set (d := (Zdigits2 N - 53)%Z) in *.
    assert (Hd0 : (0 < d)%Z) by lia.
    assert (Be : bpow e1 = IZR (2 ^ d) * bpow e).
    { rewrite Ed, bpow_plus, (bpow_IZR d) by lia. ring. }
    rewrite Be in Hb |- *. unfold x in Hb |- *.
    rewrite <- !Rmult_assoc in Hb.
    assert (Hi : (ms * 2 ^ d <= N < (ms + 1) * 2 ^ d)%Z).
    { destruct Hb as [B1 B2]. split.
      - apply le_IZR. rewrite mult_IZR. apply (Rmult_le_reg_r (bpow e)); [exact Hu | exact B1].
      - apply lt_IZR. rewrite mult_IZR, plus_IZR. apply (Rmult_lt_reg_r (bpow e)); [exact Hu | exact B2]. }
    assert (Hd' : d = (Zdigits2 ((2 ^ 53 - 1) * Z.pos mb) - 53)%Z) by (unfold d; rewrite HN; reflexivity).
    rewrite HN in Hi.
    assert (RD := max_mul_round_down (Z.pos mb) ms d ltac:(lia) Hd' Hd0 Hi).
    rewrite <- HN in RD. apply IZR_lt in RD. rewrite !mult_IZR, plus_IZR, mult_IZR in RD.
    set (t := IZR (2 ^ d)) in *. set (u := bpow e) in *.
    assert (R' : 0 < (IZR ms + / 2) * t - IZR N) by lra.
    assert (0 < u * ((IZR ms + / 2) * t - IZR N)) by (apply Rmult_lt_0_compat; assumption).
    lra.
Qed.

(** A finite binary64 float is the largest one [(2^53 - 1) 2^971], of
    either sign, or below it in magnitude. *)
Lemma valid_max_or_below (a : pyfloat) :
  sf_valid a = true -> sf_is_finite a = true ->
  (exists sa, a = S754_finite sa 9007199254740991 971) \/
  Rabs (sf_real a) < bpow 1024 - bpow 971.
Proof.
  intros V F. assert (Hb := bpow_pos 971).
  assert (E : bpow 1024 = 9007199254740992 * bpow 971).
  { replace 1024%Z with (53 + 971)%Z by reflexivity. rewrite bpow_plus, bpow_53. reflexivity. }
  rewrite E.
  destruct a as [s|s| |s m e]; try discriminate F.
  - right. cbn [sf_real]. rewrite Rabs_R0. lra.
  - destruct (valid_finite_bounds s m e V) as [Hm He].
    destruct (Pos.eq_dec m 9007199254740991) as [->|Nm];
      [destruct (Z.eq_dec e 971) as [->|Ne]; [left; exists s; reflexivity|] |].
    + right. cbn [sf_real]. rewrite Rmult_assoc, sgn_abs_mul.
      rewrite Rabs_pos_eq by (apply Rmult_le_pos; [apply IZR_le; lia | left; apply bpow_pos]).
      assert (H2 : bpow e * 2 <= bpow 971).
      { replace 971%Z with ((e + 1) + (970 - e))%Z by lia. rewrite !bpow_plus, bpow_1.
        assert (1 <= bpow (970 - e)) by (replace 1 with (bpow 0) by reflexivity;
                                         apply bpow_le; lia).
        assert (Hbe := bpow_pos e). nra. }
      assert (Hbe := bpow_pos e). nra.
    + right. cbn [sf_real]. rewrite Rmult_assoc, sgn_abs_mul.
      rewrite Rabs_pos_eq by (apply Rmult_le_pos; [apply IZR_le; lia | left; apply bpow_pos]).
      assert (H1 : IZR (Z.pos m) <= 9007199254740990) by (apply IZR_le; lia).
      assert (H2 : bpow e <= bpow 971) by (apply bpow_le; lia).
      assert (Hbe := bpow_pos e). nra.
Qed.

(** A finite product of finite floats whose first factor is the largest
    float in magnitude is at most the exact product in magnitude. *)
Lemma mul_max_or_below (a b : pyfloat) :
  sf_valid a = true -> sf_valid b = true ->
  sf_is_finite a = true -> sf_is_finite b = true ->
  sf_is_finite (SF64mul a b) = true ->
  Rabs (sf_real a) < bpow 1024 - bpow 971 \/
  (Rabs (sf_real a) = bpow 1024 - bpow 971 /\
   Rabs (sf_real (SF64mul a b)) <= Rabs (sf_real a * sf_real b)).
Proof.
  intros Va Vb Fa Fb Fp.
  destruct (valid_max_or_below a Va Fa) as [[sa ->]|L]; [right|left; exact L].
  split.
  - cbn [sf_real]. rewrite Rmult_assoc, sgn_abs_mul.
    rewrite Rabs_pos_eq by (apply Rmult_le_pos; [apply IZR_le; lia | left; apply bpow_pos]).
    replace 1024%Z with (53 + 971)%Z by reflexivity. rewrite bpow_plus, bpow_53. 
    change (IZR (Z.pos 9007199254740991)) with (IZR (9007199254740992 - 1)).
    rewrite minus_IZR. ring.
  - destruct b as [sb|sb| |sb mb eb]; try discriminate Fb.
    + unfold SF64mul, SFmul. cbn [sf_real]. rewrite Rmult_0_r, Rabs_R0. lra.
    + exact (mul_max_le sa sb mb eb Vb Fp).
Qed.

(** C7: for finite [a] and finite [b <> 0] whose product neither overflows
    nor falls below [2^-1022] in magnitude, [divide(multiply(a, b), b)]
    returns a finite float within [2^-51 |a| + 2^-1075] of [a]. *)
Theorem multiply_divide_round_trip (a b : pyfloat) :
  sf_valid a = true -> sf_valid b = true ->
  sf_is_finite a = true -> sf_is_finite b = true -> py_eq b fzero = false ->
  sf_is_finite (multiply a b) = true ->
  bpow (-1022) <= Rabs (sf_real a * sf_real b) ->
  exists r, divide (multiply a b) b = Ok r /\ sf_is_finite r = true /\
    Rabs (sf_real r - sf_real a) <= bpow (-51) * Rabs (sf_real a) + bpow (-1075).
Proof.
  intros Va Vb Fa Fb Zb Fp L. unfold multiply in *.
  assert (A := mul_max_or_below a b Va Vb Fa Fb Fp).
  assert (Nb : sf_real b <> 0).
  { destruct b as [s|s| |s m e]; try discriminate Fb;
      [vm_compute in Zb; destruct s; discriminate Zb | apply finite_real_nonzero]. }
  assert (M := mul_relative a b Fa Fb Fp L).
  set (p := SF64mul a b) in *.
  unfold divide, py_truediv. rewrite Zb. exists (SF64div p b). split; [reflexivity|].
  assert (Eps := bpow_m53_le_1).
  assert (Q := quotient_close _ _ _ _ Nb M).
  set (x := sf_real a) in *. set (y := sf_real b) in *.
  set (P := sf_real p) in *. set (eps := bpow (-53)) in *.
  assert (T1 : Rabs (P / y) <= (1 + eps) * Rabs x).
  { replace (P / y) with ((P / y - x) + x) by ring.
    assert (Hr := Rabs_triang (P / y - x) x). lra. }
  assert (Hx := Rabs_pos x). assert (Hu := bpow_pos (-1075)).
  destruct (div_error p b Fp Fb Nb) as [[Fr D]|[_ Big]].
  - split; [exact Fr|]. fold P y in D.
    assert (T2 : Rabs (sf_real (SF64div p b) - x) <=
                 Rabs (sf_real (SF64div p b) - P / y) + Rabs (P / y - x)).
    { replace (sf_real (SF64div p b) - x)
        with ((sf_real (SF64div p b) - P / y) + (P / y - x)) by ring.
      apply Rabs_triang. }
    rewrite bpow_m51. fold eps. fold eps in D.
    assert (T5 : 0 <= eps * Rabs x) by nra.
    destruct D as [D|D].
    + assert (T3 : eps * Rabs (P / y) <= eps * ((1 + eps) * Rabs x))
        by (apply Rmult_le_compat_l; lra).
      assert (T4 : eps * (eps * Rabs x) <= eps * Rabs x)
        by (apply Rmult_le_compat_l; nra).
      lra.
    + lra.
  - exfalso. fold P y in Big.
    assert (Hb := bpow_pos 971).
    assert (B970 : bpow 971 = 2 * bpow 970).
    { replace 971%Z with (1 + 970)%Z by reflexivity. rewrite bpow_plus, bpow_1. reflexivity. }
    destruct A as [Ma|[Ma Le]].
    + assert (A := below_max_le a Va Ma). fold x in A.
      rewrite bpow_overflow in Big.
      assert (T3 : (1 + eps) * Rabs x <= (1 + eps) * (9007199254740990 * bpow 971))
        by (apply Rmult_le_compat_l; lra).
      assert (T4 : eps * (9007199254740990 * bpow 971) < bpow 971).
      { unfold eps. rewrite <- Rmult_assoc, (Rmult_comm (bpow (-53))), Rmult_assoc.
        rewrite <- bpow_plus. replace (-53 + 971)%Z with 918%Z by reflexivity.
        replace 971%Z with (918 + 53)%Z by reflexivity. rewrite bpow_plus, bpow_53.
        assert (Hb' := bpow_pos 918). lra. }
      lra.
    + assert (Hy : 0 < Rabs y) by (apply Rabs_pos_lt; exact Nb).
      assert (T3 : Rabs (P / y) <= Rabs x).
      { unfold Rdiv. rewrite Rabs_mult, Rabs_inv.
        apply (Rmult_le_reg_r (Rabs y)); [exact Hy|].
        rewrite Rmult_assoc, Rinv_l by lra. rewrite Rmult_1_r, <- Rabs_mult. exact Le. }
      lra.
Qed.

Lemma multiply_divide_round_trip_witness :
  exists r, divide (multiply (lit 1.7976931348623157e308) (lit 0.1)) (lit 0.1) = Ok r /\
    sf_is_finite r = true /\
    Rabs (sf_real r - sf_real (lit 1.7976931348623157e308)) <=
      bpow (-51) * Rabs (sf_real (lit 1.7976931348623157e308)) + bpow (-1075).
Proof.
  assert (G : forall s1 m1 e1 s2 m2 e2,
             bpow (e1 + e2) <= Rabs (sf_real (S754_finite s1 m1 e1) * sf_real (S754_finite s2 m2 e2))).
  { intros s1 m1 e1 s2 m2 e2. cbn [sf_real].
    replace (sgn s1 * IZR (Z.pos m1) * bpow e1 * (sgn s2 * IZR (Z.pos m2) * bpow e2))
      with (sgn s1 * (sgn s2 * ((IZR (Z.pos m1) * IZR (Z.pos m2)) * bpow (e1 + e2))))
      by (rewrite bpow_plus; ring).
    rewrite !sgn_abs_mul, Rabs_pos_eq.
    - assert (1 <= IZR (Z.pos m1)) by (apply IZR_le; lia).
      assert (1 <= IZR (Z.pos m2)) by (apply IZR_le; lia).
      assert (Hb := bpow_pos (e1 + e2)). assert (1 <= IZR (Z.pos m1) * IZR (Z.pos m2)) by nra. nra.
    - apply Rmult_le_pos; [apply Rmult_le_pos; apply IZR_le; lia | left; apply bpow_pos]. }
  apply multiply_divide_round_trip; try (vm_compute; reflexivity).
  change (lit 1.7976931348623157e308) with (S754_finite false 9007199254740991 971).
  change (lit 0.1) with (S754_finite false 7205759403792794 (-56)).
  eapply Rle_trans; [| apply G]. apply bpow_le. lia.
Defined.

End CalculatorRealFacts.
Module CalculatorExtras.
Import Calculator RoundingFacts RealValue RoundingError CalculatorFacts CalculatorRealFacts.
Import Stdlib.Reals.Reals Stdlib.micromega.Psatz.
Local Open Scope R_scope.

(** The sign of a rounded result is the sign it is given. *)
Lemma binary_round_aux_opp (s : bool) (m e : Z) (l : location) :
  binary_round_aux prec emax (negb s) m e l = SFopp (binary_round_aux prec emax s m e l).
Proof.
  unfold binary_round_aux.
  destruct (shr_fexp prec emax m e l) as [r1 e1].
  destruct (shr_fexp prec emax (round_nearest_even (shr_m r1) (loc_of_shr_record r1)) e1
              loc_Exact) as [r2 e2].
  destruct (shr_m r2); [reflexivity | destruct (e2 <=? emax - prec)%Z | ]; reflexivity.
Qed.

Lemma py_eq_opp_zero (b : pyfloat) : py_eq (SFopp b) fzero = py_eq b fzero.
Proof. destruct b as [[]|[]| |[] m e]; reflexivity. Qed.

Ltac intdef_arith :=
  intdef_to_z; intdef_to_z_tests;
  repeat first
    [ change (IntDef.Z.sub ?a ?b) with (Z.sub a b) in *
    | change (IntDef.Z.opp ?a) with (Z.opp a) in * ].

(** [a - b] is computed as [a + (-b)]. *)
Lemma sub_add_opp (a b : pyfloat) : SF64sub a b = SF64add a (SFopp b).
Proof.
  unfold SF64sub, SF64add, SFsub, SFadd.
  destruct a as [[]|[]| |sa ma ea], b as [[]|[]| |[] mb eb]; try reflexivity;
    cbn [SFopp negb cond_Zopp]; f_equal; lia.
Qed.

(** X1: [subtract(a, b)] is [add(a, -b)] for all floats, signed zeros,
    infinities and NaN included. *)
Theorem subtract_is_add_opposite (a b : pyfloat) :
  subtract a b = add a (SFopp b).
Proof. apply sub_add_opp. Qed.

(** X2: [multiply] is commutative, for all floats. *)
Theorem multiply_commutative (a b : pyfloat) : multiply a b = multiply b a.
Proof.
  unfold multiply, SF64mul, SFmul.
  destruct a as [[]|[]| |sa ma ea], b as [[]|[]| |sb mb eb]; cbn [SFmul];
    rewrite ?(xorb_comm sa); try reflexivity; rewrite ?xorb_false_r; try reflexivity.
  rewrite (Pos.mul_comm ma). intdef_to_z_tests. rewrite (Z.add_comm ea). reflexivity.
Qed.

(** X3: [divide] and [modulo] never let Python's own [ZeroDivisionError]
    through: their [b == 0] test runs before the float division or remainder
    could raise it. *)
Theorem no_zero_division_error (a b : pyfloat) (msg : string) :
  divide a b <> Raise (ZeroDivisionError msg) /\
  modulo a b <> Raise (ZeroDivisionError msg).
Proof.
  unfold divide, modulo, py_truediv, py_mod.
  destruct (py_eq b fzero); split; try discriminate.
  destruct (negb (py_eq (c_fmod a b) fzero)); [destruct (xorb _ _)|]; discriminate.
Qed.

(** X4: [subtract(a, a)] and [add(a, -a)] are [+0.0] for every finite [a]
    ([-0.0] included), and NaN for an infinite or NaN [a]. *)
Theorem subtract_self_zero (a : pyfloat) :
  subtract a a = (if sf_is_finite a then fzero else S754_nan) /\
  add a (SFopp a) = (if sf_is_finite a then fzero else S754_nan).
Proof.
  unfold subtract, add, SF64sub, SF64add, SFsub, SFadd.
  destruct a as [[]|[]| |[] m e]; cbn [SFopp negb cond_Zopp sf_is_finite];
    split; try reflexivity;
    match goal with
    | |- binary_normalize _ _ ?x _ _ = _ => replace x with 0%Z by (intdef_arith; lia)
    end; reflexivity.
Qed.

(** X5: [multiply] and [divide] are odd in each argument: negating [a] or
    [b] negates the result (whenever [divide] returns one). *)
Theorem multiply_divide_odd (a b : pyfloat) :
  multiply (SFopp a) b = SFopp (multiply a b) /\
  multiply a (SFopp b) = SFopp (multiply a b) /\
  (forall r, divide a b = Ok r ->
     divide (SFopp a) b = Ok (SFopp r) /\ divide a (SFopp b) = Ok (SFopp r)).
Proof.
  assert (Mul : forall x y, multiply (SFopp x) y = SFopp (multiply x y)).
  { intros x y. unfold multiply, SF64mul, SFmul.
    destruct x as [sx|sx| |sx mx ex], y as [sy|sy| |sy my ey]; cbn [SFmul SFopp];
      try reflexivity; try (destruct sx, sy; reflexivity);
      rewrite <- binary_round_aux_opp; destruct sx, sy; reflexivity. }
  assert (Div : forall x y, SF64div (SFopp x) y = SFopp (SF64div x y) /\
                            SF64div x (SFopp y) = SFopp (SF64div x y)).
  { intros x y. unfold SF64div, SFdiv.
    destruct x as [sx|sx| |sx mx ex], y as [sy|sy| |sy my ey]; cbn [SFdiv SFopp];
      try (split; reflexivity); try (destruct sx, sy; split; reflexivity);
      destruct (SFdiv_core_binary prec emax (Z.pos mx) ex (Z.pos my) ey) as [[mz ez] lz];
      rewrite <- !binary_round_aux_opp; destruct sx, sy; split; reflexivity. }
  split; [apply Mul|]. split.
  - rewrite !(multiply_commutative a). apply Mul.
  - intros r. unfold divide, py_truediv. rewrite py_eq_opp_zero.
    destruct (py_eq b fzero); [discriminate|]. intros E. injection E as <-.
    destruct (Div a b) as [D1 D2]. rewrite D1, D2. split; reflexivity.
Qed.

(** X6: [absolute] maps a finite float to a finite one of positive sign
    ([-0.0] to [0.0]) and of value exactly [|x|], an infinity of either
    sign to [inf], and NaN to NaN; it is idempotent. *)
Theorem absolute_exact (x : pyfloat) :
  (sf_is_finite x = true ->
   sf_is_finite (absolute x) = true /\ sf_sign (absolute x) = false /\
   sf_real (absolute x) = Rabs (sf_real x)) /\
  (forall s, x = S754_infinity s -> absolute x = S754_infinity false) /\
  (x = S754_nan -> absolute x = S754_nan) /\
  absolute (absolute x) = absolute x.
Proof.
  split; [|split; [intros s ->; reflexivity | split; [intros ->; reflexivity |
                                                       destruct x; reflexivity]]].
  intros F. split; [destruct x; try discriminate F; reflexivity|].
  split; [destruct x; try discriminate F; reflexivity|].
  destruct x as [s|s| |s m e]; cbn [absolute SFabs sf_real];
    try (rewrite Rabs_R0; reflexivity).
  rewrite !Rmult_assoc, sgn_abs_mul. unfold sgn. rewrite Rmult_1_l.
  symmetry. apply Rabs_pos_eq.
  apply Rmult_le_pos; [apply IZR_le; lia | left; apply bpow_pos].
Qed.

(** X7: [power(x, 0.0)] and [power(x, -0.0)] return [1.0] for every [x],
    NaN and infinities included. *)
Theorem power_zero_exponent (c_pow : pyfloat -> pyfloat -> pyfloat) :
  libm_pow c_pow -> forall x s, power c_pow x (S754_zero s) = Ok fone.
Proof.
  intros L x s. unfold power, math_pow.
  destruct x as [sx|[]| |sx m e]; try (destruct s; reflexivity); cbn [sf_is_finite andb negb].
  - rewrite (pow_exact _ L (S754_zero sx) (S754_zero s) 0%Z fone); reflexivity.
  - rewrite (pow_exact _ L (S754_finite sx m e) (S754_zero s) 0%Z fone); reflexivity.
Qed.

Lemma power_zero_exponent_witness :
  libm_pow pow_model /\ power pow_model S754_nan (S754_zero true) = Ok fone.
Proof.
  split; [exact pow_model_libm|].
  exact (power_zero_exponent pow_model pow_model_libm S754_nan true).
Defined.

(** [binary_round] starts from an exponent no larger than the canonical
    one, so an overflow only happens for a value of at least
    [2^1024 - 2^970]. *)
Lemma binary_round_error_ov (s : bool) (p : positive) (e : Z) :
  (-1074 <= e)%Z ->
  let r := binary_round prec emax s p e in
  (sf_is_finite r = true /\
   Rabs (sf_real r - sgn s * (IZR (Z.pos p) * bpow e)) <=
     bpow (-53) * (IZR (Z.pos p) * bpow e)) \/
  ((exists s', r = S754_infinity s') /\ bpow 1024 - bpow 970 <= IZR (Z.pos p) * bpow e).
Proof.
  intros He r. unfold r, binary_round.
  set (t := fexp prec emax (Z.pos (digits2_pos p) + e)).
  assert (Ht : (-1074 <= t)%Z) by (unfold t; fexp_lia).
  assert (Hal : let (mz, ez) := shl_align p e t in
                IZR (Z.pos mz) * bpow ez = IZR (Z.pos p) * bpow e /\ (-1074 <= ez)%Z /\
                (ez <= fexp prec emax (Zdigits2 (Z.pos mz) + ez))%Z).
  { unfold shl_align. destruct (t - e)%Z as [|d|d] eqn:E.
    - split; [reflexivity|]. split; [lia|]. cbn [Zdigits2]. fold t. lia.
    - split; [reflexivity|]. split; [lia|]. cbn [Zdigits2]. fold t. lia.
    - split; [|split; [exact Ht|]].
      + rewrite iter_xO_mul, mult_IZR, <- bpow_IZR by lia.
        rewrite Rmult_assoc, <- bpow_plus. f_equal. f_equal. lia.
      + cbn [Zdigits2].
        rewrite (digits2_mul_pow2 p _ (Z.pos d)); [| lia | apply iter_xO_mul].
        replace (Z.pos (digits2_pos p) + Z.pos d + t)%Z with (Z.pos (digits2_pos p) + e)%Z
          by lia.
        fold t. lia. }
  destruct (shl_align p e t) as [mz ez]. destruct Hal as (Hv & Hez & Hpre).
  assert (Hin : inbetween (IZR (Z.pos mz) * bpow ez) (Z.pos mz) ez loc_Exact) by reflexivity.
  pose proof (binary_round_aux_error _ s (Z.pos mz) ez loc_Exact ltac:(lia) Hin
                (or_intror Hpre)) as B.
  cbv zeta in B. rewrite Hv in B.
  destruct B as [[Hf [B|[_ [B|B]]]]|[B [B'|[_ B']]]].
  - left. split; assumption.
  - contradiction.
  - lia.
  - right. split; assumption.
  - lia.
Qed.

Lemma binary_normalize_error_ov (M ez : Z) (sz : bool) :
  (-1074 <= ez)%Z ->
  let r := binary_normalize prec emax M ez sz in
  (sf_is_finite r = true /\
   Rabs (sf_real r - IZR M * bpow ez) <= bpow (-53) * Rabs (IZR M * bpow ez)) \/
  ((exists s', r = S754_infinity s') /\ bpow 1024 - bpow 970 <= Rabs (IZR M * bpow ez)).
Proof.
  intros Hez r. unfold r. destruct M as [|p|p]; cbn [binary_normalize].
  - left. split; [reflexivity|]. apply abs_zero_le; [cbn [sf_real]; ring | left; apply bpow_pos].
  - assert (P : 0 <= IZR (Z.pos p) * bpow ez)
      by (apply Rmult_le_pos; [apply IZR_le; lia | left; apply bpow_pos]).
    rewrite (Rabs_pos_eq _ P).
    destruct (binary_round_error_ov false p ez Hez) as [[F B]|B]; [left|right; exact B].
    split; [exact F|]. unfold sgn in B. rewrite Rmult_1_l in B. exact B.
  - assert (P : 0 <= IZR (Z.pos p) * bpow ez)
      by (apply Rmult_le_pos; [apply IZR_le; lia | left; apply bpow_pos]).
    replace (IZR (Z.neg p) * bpow ez) with (sgn true * (IZR (Z.pos p) * bpow ez))
      by (cbn [sgn]; change (IZR (Z.neg p)) with (IZR (- Z.pos p)); rewrite opp_IZR; ring).
    rewrite sgn_abs_mul, (Rabs_pos_eq _ P).
    destruct (binary_round_error_ov true p ez Hez) as [[F B]|B]; [left|right; exact B].
    split; [exact F | exact B].
Qed.

(** The sum of two floats of exponents at least [-1074]: the exact sum within
    a relative error of [2^-53], or an overflow of a sum of magnitude at least
    [2^1024 - 2^970]. *)
Lemma add_error_ov (a b : pyfloat) :
  exp_in_range a -> exp_in_range b ->
  sf_is_finite a = true -> sf_is_finite b = true ->
  let r := SF64add a b in
  (sf_is_finite r = true /\
   Rabs (sf_real r - (sf_real a + sf_real b)) <= bpow (-53) * Rabs (sf_real a + sf_real b)) \/
  ((exists s, r = S754_infinity s) /\ bpow 1024 - bpow 970 <= Rabs (sf_real a + sf_real b)).
Proof.
  intros Va Vb Fa Fb r. unfold r, SF64add, SFadd.
  destruct a as [sa|sa| |sa ma ea]; try discriminate;
  destruct b as [sb|sb| |sb mb eb]; try discriminate.
  - destruct sa, sb; exact_result.
  - exact_result.
  - exact_result.
  - cbn [exp_in_range] in Va, Vb.
    set (ez := Z.min ea eb).
    assert (Hsum : IZR (cond_Zopp sa (Z.pos (fst (shl_align ma ea ez))) +
                        cond_Zopp sb (Z.pos (fst (shl_align mb eb ez)))) * bpow ez =
                   sf_real (S754_finite sa ma ea) + sf_real (S754_finite sb mb eb)).
    { rewrite plus_IZR, Rmult_plus_distr_r.
      rewrite !IZR_cond_shl_align by lia. reflexivity. }
    rewrite <- Hsum. apply binary_normalize_error_ov. lia.
Qed.

Lemma sf_real_opp (x : pyfloat) : sf_real (SFopp x) = - sf_real x.
Proof. destruct x as [| | |[] m e]; cbn [SFopp sf_real sgn negb]; ring. Qed.

Lemma valid_opp (x : pyfloat) : sf_valid (SFopp x) = sf_valid x.
Proof. destruct x; reflexivity. Qed.

Lemma finite_opp (x : pyfloat) : sf_is_finite (SFopp x) = sf_is_finite x.
Proof. destruct x; reflexivity. Qed.

(** X8: [add] of two finite floats returns their exact sum within a relative
    error of [2^-53], or overflows to an infinity, which only happens when
    the exact sum has a magnitude of at least [2^1024 - 2^970]. *)
Theorem add_accuracy (a b : pyfloat) :
  sf_valid a = true -> sf_valid b = true ->
  sf_is_finite a = true -> sf_is_finite b = true ->
  let r := add a b in
  (sf_is_finite r = true /\
   Rabs (sf_real r - (sf_real a + sf_real b)) <= bpow (-53) * Rabs (sf_real a + sf_real b)) \/
  ((exists s, r = S754_infinity s) /\ bpow 1024 - bpow 970 <= Rabs (sf_real a + sf_real b)).
Proof.
  intros Va Vb Fa Fb. apply add_error_ov; auto using valid_exp_in_range.
Qed.

Lemma add_accuracy_witness :
  let r := add (lit 1) (lit 0.25) in
  (sf_is_finite r = true /\
   Rabs (sf_real r - (sf_real (lit 1) + sf_real (lit 0.25))) <=
     bpow (-53) * Rabs (sf_real (lit 1) + sf_real (lit 0.25))) \/
  ((exists s, r = S754_infinity s) /\
   bpow 1024 - bpow 970 <= Rabs (sf_real (lit 1) + sf_real (lit 0.25))).
Proof. apply add_accuracy; vm_compute; reflexivity. Defined.

(** X9: [subtract] of two finite floats returns their exact difference
    within a relative error of [2^-53], or overflows to an infinity, which
    only happens when the exact difference has a magnitude of at least
    [2^1024 - 2^970]. *)
Theorem subtract_accuracy (a b : pyfloat) :
  sf_valid a = true -> sf_valid b = true ->
  sf_is_finite a = true -> sf_is_finite b = true ->
  let r := subtract a b in
  (sf_is_finite r = true /\
   Rabs (sf_real r - (sf_real a - sf_real b)) <= bpow (-53) * Rabs (sf_real a - sf_real b)) \/
  ((exists s, r = S754_infinity s) /\ bpow 1024 - bpow 970 <= Rabs (sf_real a - sf_real b)).
Proof.
  intros Va Vb Fa Fb. unfold subtract. rewrite sub_add_opp.
  unfold Rminus. rewrite <- sf_real_opp.
  apply add_error_ov; rewrite ?finite_opp; auto using valid_exp_in_range.
  apply valid_exp_in_range. rewrite valid_opp. exact Vb.
Qed.

Lemma subtract_accuracy_witness :
  let r := subtract (lit 1) (lit 0.25) in
  (sf_is_finite r = true /\
   Rabs (sf_real r - (sf_real (lit 1) - sf_real (lit 0.25))) <=
     bpow (-53) * Rabs (sf_real (lit 1) - sf_real (lit 0.25))) \/
  ((exists s, r = S754_infinity s) /\
   bpow 1024 - bpow 970 <= Rabs (sf_real (lit 1) - sf_real (lit 0.25))).
Proof. apply subtract_accuracy; vm_compute; reflexivity. Defined.

(** A binary64 float is canonical: its exponent is the one [fexp] gives to
    its number of digits. *)
Lemma valid_canonical (s : bool) (m : positive) (e : Z) :
  sf_valid (S754_finite s m e) = true ->
  fexp prec emax (Z.pos (digits2_pos m) + e) = e.
Proof.
  unfold sf_valid, SpecFloat.valid_binary, bounded, canonical_mantissa.
  intros H. apply andb_prop in H. destruct H as [H1 _]. apply Z.eqb_eq in H1. exact H1.
Qed.

Lemma digits2_mul_ge (p q : positive) :
  (Z.pos (digits2_pos p) + Z.pos (digits2_pos q) - 1 <= Z.pos (digits2_pos (p * q)))%Z.
Proof.
  destruct (digits2_bounds p) as [P1 _], (digits2_bounds q) as [Q1 _],
    (digits2_bounds (p * q)) as [_ R2].
  set (dp := Z.pos (digits2_pos p)) in *. set (dq := Z.pos (digits2_pos q)) in *.
  set (D := Z.pos (digits2_pos (p * q))) in *.
  assert (Hp : (0 < dp)%Z) by (unfold dp; lia). assert (Hq : (0 < dq)%Z) by (unfold dq; lia).
  assert (L : (2 ^ (dp - 1 + (dq - 1)) <= Z.pos (p * q))%Z).
  { rewrite Z.pow_add_r, Pos2Z.inj_mul by lia. apply Z.mul_le_mono_nonneg; lia. }
  destruct (Z.le_gt_cases (dp + dq - 1) D) as [G|G]; [exact G|].
  assert (2 ^ D <= 2 ^ (dp - 1 + (dq - 1)))%Z by (apply Z.pow_le_mono_r; lia). lia.
Qed.

(** The product of two canonical mantissas has at least the canonical
    exponent's digits: the rounding of a product starts at or below the
    canonical exponent. *)
Lemma mul_pre (sa sb : bool) (ma mb : positive) (ea eb : Z) :
  sf_valid (S754_finite sa ma ea) = true -> sf_valid (S754_finite sb mb eb) = true ->
  (ea + eb <= fexp prec emax (Zdigits2 (Z.pos (ma * mb)) + (ea + eb)))%Z.
Proof.
  intros Va Vb. apply valid_canonical in Va, Vb.
  pose proof (digits2_mul_ge ma mb).
  pose proof (Pos2Z.is_pos (digits2_pos ma)). pose proof (Pos2Z.is_pos (digits2_pos mb)).
  cbn [Zdigits2]. fexp_lia.
Qed.

(** The product of two finite floats: the exact product within a relative
    error of [2^-53] or an absolute one of [2^-1075], or an overflow of a
    product of magnitude at least [2^1024 - 2^970]. *)
Lemma mul_error_ov (a b : pyfloat) :
  sf_valid a = true -> sf_valid b = true ->
  sf_is_finite a = true -> sf_is_finite b = true ->
  let r := SF64mul a b in
  (sf_is_finite r = true /\
   (Rabs (sf_real r - sf_real a * sf_real b) <= bpow (-53) * Rabs (sf_real a * sf_real b) \/
    Rabs (sf_real r - sf_real a * sf_real b) <= bpow (-1075))) \/
  ((exists s, r = S754_infinity s) /\ bpow 1024 - bpow 970 <= Rabs (sf_real a * sf_real b)).
Proof.
  intros Va Vb Fa Fb r. unfold r, SF64mul, SFmul.
  destruct a as [sa|sa| |sa ma ea]; try discriminate;
  destruct b as [sb|sb| |sb mb eb]; try discriminate;
    try (left; split; [reflexivity|]; left;
         apply abs_zero_le; [cbn [sf_real]; ring | left; apply bpow_pos]).
  pose proof (mul_pre sa sb ma mb ea eb Va Vb) as Hpre.
  set (x := IZR (Z.pos (ma * mb)) * bpow (ea + eb)).
  assert (Hin : inbetween x (Z.pos (ma * mb)) (ea + eb) loc_Exact) by reflexivity.
  assert (Hx : 0 <= x).
  { apply Rmult_le_pos; [apply IZR_le; lia | left; apply bpow_pos]. }
  assert (Hab : sgn (xorb sa sb) * x =
                sf_real (S754_finite sa ma ea) * sf_real (S754_finite sb mb eb)).
  { unfold x. cbn [sf_real]. rewrite Pos2Z.inj_mul, mult_IZR, bpow_plus.
    destruct sa, sb; unfold sgn; cbn [xorb]; ring. }
  pose proof (binary_round_aux_error x (xorb sa sb) (Z.pos (ma * mb)) (ea + eb) loc_Exact
                ltac:(lia) Hin (or_intror Hpre)) as B.
  cbv zeta in B. rewrite Hab in B.
  rewrite <- Hab, sgn_abs_mul, (Rabs_pos_eq x Hx), Hab.
  destruct B as [[Hf [B|[B _]]]|[B [B'|[_ B']]]].
  - left. split; [exact Hf | left; exact B].
  - left. split; [exact Hf | right; exact B].
  - right. split; assumption.
  - exfalso. intdef_arith. lia.
Qed.

(** Two roundings in a row, the second of the first's result divided by
    [k]: their errors add up. *)
Lemma compose_error (x m r k eps d : R) :
  0 < k -> 0 <= eps -> 0 <= d ->
  Rabs (m - x) <= eps * Rabs x + d ->
  Rabs (r - m / k) <= eps * Rabs (m / k) + d ->
  Rabs (r - x / k) <= (2 * eps + eps * eps) * Rabs (x / k) + (d / k + d + eps * d / k).
Proof.
  intros Hk He Hd HA HB.
  assert (Ek : forall y, Rabs (y / k) = Rabs y / k).
  { intros y. unfold Rdiv. rewrite Rabs_mult, Rabs_inv, (Rabs_pos_eq k) by lra. reflexivity. }
  rewrite Ek in HB |- *.
  assert (Hm : Rabs m <= Rabs x + (eps * Rabs x + d)).
  { replace m with (x + (m - x)) by ring. eapply Rle_trans; [apply Rabs_triang|]. lra. }
  replace (r - x / k) with ((r - m / k) + (m - x) / k) by (field; lra).
  eapply Rle_trans; [apply Rabs_triang|]. rewrite Ek.
  assert (Hx := Rabs_pos x).
  unfold Rdiv in *. set (u := / k) in *.
  assert (Hu : 0 < u) by (unfold u; apply Rinv_0_lt_compat; exact Hk).
  assert (eps * (Rabs m * u) <= eps * ((Rabs x + (eps * Rabs x + d)) * u))
    by (apply Rmult_le_compat_l; [lra|]; apply Rmult_le_compat_r; lra).
  assert (Rabs (m - x) * u <= (eps * Rabs x + d) * u) by (apply Rmult_le_compat_r; lra).
  lra.
Qed.

(** X10: [multiply] of two finite floats returns their exact product within a
    relative error of [2^-53], or within [2^-1075] when it underflows, or
    overflows to an infinity, which only happens when the exact product has
    a magnitude of at least [2^1024 - 2^970]. *)
Theorem multiply_accuracy (a b : pyfloat) :
  sf_valid a = true -> sf_valid b = true ->
  sf_is_finite a = true -> sf_is_finite b = true ->
  let r := multiply a b in
  (sf_is_finite r = true /\
   (Rabs (sf_real r - sf_real a * sf_real b) <= bpow (-53) * Rabs (sf_real a * sf_real b) \/
    Rabs (sf_real r - sf_real a * sf_real b) <= bpow (-1075))) \/
  ((exists s, r = S754_infinity s) /\ bpow 1024 - bpow 970 <= Rabs (sf_real a * sf_real b)).
Proof. apply mul_error_ov. Qed.

Lemma multiply_accuracy_witness :
  let r := multiply (lit 0.25) (lit 3) in
  (sf_is_finite r = true /\
   (Rabs (sf_real r - sf_real (lit 0.25) * sf_real (lit 3)) <=
      bpow (-53) * Rabs (sf_real (lit 0.25) * sf_real (lit 3)) \/
    Rabs (sf_real r - sf_real (lit 0.25) * sf_real (lit 3)) <= bpow (-1075))) \/
  ((exists s, r = S754_infinity s) /\
   bpow 1024 - bpow 970 <= Rabs (sf_real (lit 0.25) * sf_real (lit 3))).
Proof. apply multiply_accuracy; vm_compute; reflexivity. Defined.

(** X11: [divide] of a finite float by a finite nonzero float succeeds; it
    returns the exact quotient within a relative error of [2^-53], or within
    [2^-1075] when it underflows, or an infinity, which only happens when the
    exact quotient has a magnitude of at least [2^1024 - 2^970]. *)
Theorem divide_accuracy (a b : pyfloat) :
  sf_is_finite a = true -> sf_is_finite b = true -> py_eq b fzero = false ->
  exists r, divide a b = Ok r /\
  ((sf_is_finite r = true /\
    (Rabs (sf_real r - sf_real a / sf_real b) <= bpow (-53) * Rabs (sf_real a / sf_real b) \/
     Rabs (sf_real r - sf_real a / sf_real b) <= bpow (-1075))) \/
   ((exists s, r = S754_infinity s) /\ bpow 1024 - bpow 970 <= Rabs (sf_real a / sf_real b))).
Proof.
  intros Fa Fb Hb. exists (SF64div a b). unfold divide, py_truediv. rewrite Hb.
  split; [reflexivity|]. apply div_error; auto.
  destruct b as [sb|sb| |sb mb eb]; try discriminate.
  apply finite_real_nonzero.
Qed.

Lemma divide_accuracy_witness :
  exists r, divide (lit 1) (lit 3) = Ok r /\
  ((sf_is_finite r = true /\
    (Rabs (sf_real r - sf_real (lit 1) / sf_real (lit 3)) <=
       bpow (-53) * Rabs (sf_real (lit 1) / sf_real (lit 3)) \/
     Rabs (sf_real r - sf_real (lit 1) / sf_real (lit 3)) <= bpow (-1075))) \/
   ((exists s, r = S754_infinity s) /\
    bpow 1024 - bpow 970 <= Rabs (sf_real (lit 1) / sf_real (lit 3)))).
Proof. apply divide_accuracy; vm_compute; reflexivity. Defined.

Lemma sf_real_hundred : sf_real fhundred = 100.
Proof. vm_compute sf_real. unfold bpow. simpl. lra. Qed.

(** X12: [percentage(value, percent)] of two finite floats succeeds; it
    returns [value * percent / 100] within a relative error of [2^-51] plus
    [2^-1074], or an infinity, which only happens when the exact product
    [value * percent] has a magnitude of at least [2^1024 - 2^970]. *)
Theorem percentage_accuracy (value percent : pyfloat) :
  sf_valid value = true -> sf_valid percent = true ->
  sf_is_finite value = true -> sf_is_finite percent = true ->
  exists r, percentage value percent = Ok r /\
  ((sf_is_finite r = true /\
    Rabs (sf_real r - sf_real value * sf_real percent / 100) <=
      bpow (-51) * Rabs (sf_real value * sf_real percent / 100) + bpow (-1074)) \/
   ((exists s, r = S754_infinity s) /\
    bpow 1024 - bpow 970 <= Rabs (sf_real value * sf_real percent))).
Proof.
  intros Vv Vp Fv Fp. unfold percentage, py_truediv.
  change (py_eq fhundred fzero) with false. cbv iota.
  eexists. split; [reflexivity|].
  set (x := sf_real value * sf_real percent).
  set (eps := bpow (-53)). set (d := bpow (-1075)).
  assert (He : 0 < eps <= 1) by apply bpow_m53_le_1.
  assert (Hd : 0 < d) by apply bpow_pos.
  assert (Hthr : 0 < bpow 1024 - bpow 970)
    by (assert (bpow 970 < bpow 1024) by (apply bpow_lt; lia); lra).
  assert (Hx := Rabs_pos x).
  destruct (mul_error_ov value percent Vv Vp Fv Fp) as [[Fm Em]|[[s Es] Ov]];
    cbv zeta in *.
  2: { right. split; [|exact Ov]. rewrite Es. exists (xorb s false). reflexivity. }
  fold x eps d in Em.
  set (m := SF64mul value percent) in *.
  assert (Em' : Rabs (sf_real m - x) <= eps * Rabs x + d).
  { destruct Em as [Em|Em]; [|assert (0 <= eps * Rabs x) by nra]; lra. }
  assert (H100 : sf_real fhundred <> 0) by (rewrite sf_real_hundred; lra).
  destruct (div_error m fhundred Fm eq_refl H100) as [[Fr Er]|[[s Es] Ov]];
    cbv zeta in *; rewrite sf_real_hundred in *.
  - fold eps d in Er. left. split; [exact Fr|].
    assert (Er' : Rabs (sf_real (SF64div m fhundred) - sf_real m / 100) <=
                  eps * Rabs (sf_real m / 100) + d).
    { destruct Er as [Er|Er]; [|assert (0 <= eps * Rabs (sf_real m / 100))
        by (apply Rmult_le_pos; [lra | apply Rabs_pos])]; lra. }
    eapply Rle_trans;
      [apply (compose_error x (sf_real m) _ 100 eps d); [lra | lra | lra | exact Em' | exact Er']|].
    rewrite bpow_m51. fold eps.
    replace (bpow (-1074)) with (2 * d)
      by (unfold d; replace (-1074)%Z with (1 + -1075)%Z by lia; rewrite bpow_plus, bpow_1;
          reflexivity).
    assert (Hxk : 0 <= Rabs (x / 100)) by apply Rabs_pos.
    assert (eps * eps * Rabs (x / 100) <= eps * Rabs (x / 100)).
    { apply Rmult_le_compat_r; [exact Hxk|]. nra. }
    assert (eps * d <= d) by nra.
    set (A := Rabs (x / 100)) in *. set (B := eps * A) in *.
    replace ((2 * eps + eps * eps) * A) with (2 * B + eps * eps * A) by (unfold B; ring).
    replace (4 * eps * A) with (4 * B) by (unfold B; ring).
    assert (0 <= B) by (unfold B; apply Rmult_le_pos; lra).
    lra.
  - right. split; [exists s; exact Es|]. fold x.
    assert (Hm : Rabs (sf_real m) <= Rabs x + (eps * Rabs x + d)).
    { replace (sf_real m) with (x + (sf_real m - x)) by ring.
      eapply Rle_trans; [apply Rabs_triang|]. lra. }
    assert (Ek : Rabs (sf_real m / 100) = Rabs (sf_real m) / 100).
    { unfold Rdiv. rewrite Rabs_mult, Rabs_inv, (Rabs_pos_eq 100) by lra. reflexivity. }
    rewrite Ek in Ov.
    assert (d <= bpow 970) by (apply bpow_le; lia).
    assert (eps * Rabs x <= Rabs x) by nra.
    assert (E971 : bpow 971 = 2 * bpow 970)
      by (replace 971%Z with (1 + 970)%Z by lia; rewrite bpow_plus, bpow_1; ring).
    assert (bpow 971 <= bpow 1024) by (apply bpow_le; lia).
    lra.
Qed.

Lemma percentage_accuracy_witness :
  exists r, percentage (lit 200) (lit 15) = Ok r /\
  ((sf_is_finite r = true /\
    Rabs (sf_real r - sf_real (lit 200) * sf_real (lit 15) / 100) <=
      bpow (-51) * Rabs (sf_real (lit 200) * sf_real (lit 15) / 100) + bpow (-1074)) \/
   ((exists s, r = S754_infinity s) /\
    bpow 1024 - bpow 970 <= Rabs (sf_real (lit 200) * sf_real (lit 15)))).
Proof. apply percentage_accuracy; vm_compute; reflexivity. Defined.

(** Rounding a binary64 float gives it back. *)
Lemma binary_round_canonical (s : bool) (m : positive) (e : Z) :
  sf_valid (S754_finite s m e) = true ->
  binary_round prec emax s m e = S754_finite s m e.
Proof.
  intros V. destruct (valid_finite_bounds s m e V) as [_ He].
  pose proof (valid_canonical s m e V) as Hc.
  unfold binary_round.
  set (t := fexp prec emax (Z.pos (digits2_pos m) + e)).
  assert (Ht : t = e) by exact Hc. clearbody t. subst t.
  destruct (shl_align_spec m e e (Z.le_refl e)) as [Es Em].
  destruct (shl_align m e e) as [mz ez] eqn:Esh. cbn [fst snd] in Es, Em. subst ez.
  replace mz with m in * by (rewrite Z.sub_diag in Em; lia). clear Em Esh.
  assert (Hf : (fexp prec emax (Zdigits2 (Z.pos m) + e) - e = 0)%Z).
  { cbn [Zdigits2]. rewrite Hc. lia. }
  unfold binary_round_aux, shr_fexp. rewrite Hf.
  cbn [shr shr_record_of_loc loc_of_shr_record round_nearest_even shr_m].
  rewrite Hf. cbn [shr shr_m].
  replace (e <=? emax - prec)%Z with true; [reflexivity|].
  symmetry. apply Z.leb_le. unfold prec, emax. simpl. lia.
Qed.

(** X13: [power(x, 1.0)] returns [x] for every float [x], NaN and the
    infinities included. *)
Theorem power_one_exponent (c_pow : pyfloat -> pyfloat -> pyfloat) :
  libm_pow c_pow -> forall x, sf_valid x = true -> power c_pow x fone = Ok x.
Proof.
  intros L x V. unfold power, math_pow.
  change (sf_is_finite fone) with true. rewrite andb_true_r.
  destruct x as [s|s| |s m e]; cbn [sf_is_finite negb]; try (destruct s; reflexivity);
    try reflexivity.
  - rewrite (pow_exact _ L (S754_zero s) fone 1%Z (S754_zero s)); try reflexivity.
    destruct s; reflexivity.
  - rewrite (pow_exact _ L (S754_finite s m e) fone 1%Z (S754_finite s m e)); try reflexivity.
    unfold pow_nat_exact. change (1 =? 0)%Z with false. cbv iota.
    replace (Z.pos m ^ 1)%Z with (Z.pos m) by ring. replace (e * 1)%Z with e by ring.
    change (Z.odd 1) with true. rewrite andb_true_r.
    destruct s; [change (cond_Zopp true (Z.pos m)) with (Z.neg m)
                | change (cond_Zopp false (Z.pos m)) with (Z.pos m)];
      cbn [binary_normalize]; rewrite binary_round_canonical by exact V;
      cbv beta iota; rewrite Z.eqb_refl; reflexivity.
Qed.

Lemma power_one_exponent_witness :
  libm_pow pow_model /\ power pow_model (lit 2.5) fone = Ok (lit 2.5).
Proof.
  split; [exact pow_model_libm|].
  apply (power_one_exponent pow_model pow_model_libm (lit 2.5)). vm_compute. reflexivity.
Defined.

(** A binary64 float is below the overflow threshold. *)
Lemma valid_below_overflow (x : pyfloat) :
  sf_valid x = true -> Rabs (sf_real x) < bpow 1024 - bpow 970.
Proof.
  intros V. rewrite bpow_overflow. assert (H971 := bpow_pos 971).
  destruct x as [s|s| |s m e]; cbn [sf_real];
    try (rewrite Rabs_R0; apply Rmult_lt_0_compat; lra).
  destruct (valid_finite_bounds s m e V) as [Hm He].
  rewrite !Rmult_assoc, sgn_abs_mul, Rabs_pos_eq
    by (apply Rmult_le_pos; [apply IZR_le; lia | left; apply bpow_pos]).
  assert (Hm' : IZR (Z.pos m) <= 9007199254740991) by (apply IZR_le; lia).
  assert (He' : bpow e <= bpow 971) by (apply bpow_le; lia).
  assert (IZR (Z.pos m) * bpow e <= 9007199254740991 * bpow 971).
  { apply Rmult_le_compat; [apply IZR_le; lia | left; apply bpow_pos | exact Hm' | exact He']. }
  lra.
Qed.

(** X14: [modulo(a, b)] of a finite float by a finite nonzero float succeeds
    and returns, up to one rounding of relative error at most [2^-53], a
    remainder [a - n * b] for an integer [n], of magnitude less than [|b|]
    (the rounding only comes in when Python moves the remainder of [fmod] to
    the divisor's sign, and can then return [b] itself). *)
Theorem modulo_remainder (a b : pyfloat) :
  sf_valid a = true -> sf_valid b = true ->
  sf_is_finite a = true -> sf_is_finite b = true -> py_eq b fzero = false ->
  exists r n, modulo a b = Ok r /\ sf_is_finite r = true /\
    Rabs (sf_real a - IZR n * sf_real b) < Rabs (sf_real b) /\
    Rabs (sf_real r - (sf_real a - IZR n * sf_real b)) <=
      bpow (-53) * Rabs (sf_real a - IZR n * sf_real b).
Proof.
  intros Va Vb Fa Fb Hb0.
  assert (Hb : 0 < Rabs (sf_real b)).
  { apply Rabs_pos_lt. destruct b as [sb|sb| |sb mb eb]; try discriminate.
    apply finite_real_nonzero. }
  assert (He := bpow_m53_le_1).
  unfold modulo, py_mod. rewrite Hb0. cbv beta iota zeta.
  destruct a as [sa|sa| |sa ma ea]; try discriminate.
  { (* a zero: fmod returns it, the result is a zero *)
    destruct b as [sb|sb| |sb mb eb]; try discriminate;
      change (c_fmod (S754_zero sa) (S754_finite sb mb eb)) with (S754_zero sa);
      change (py_eq (S754_zero sa) fzero) with true; cbv beta iota.
    exists (copysign_zero (S754_finite sb mb eb)), 0%Z.
    cbn [sf_real copysign_zero sf_is_finite].
    rewrite Rmult_0_l, !Rminus_0_r, Rabs_R0.
    split; [reflexivity|]. split; [reflexivity|]. split; [exact Hb|].
    rewrite Rmult_0_r. lra. }
  destruct b as [sb|sb| |sb mb eb]; try discriminate.
  destruct (valid_finite_bounds _ _ _ Va) as [Hma Hea].
  destruct (valid_finite_bounds _ _ _ Vb) as [Hmb Heb].
  set (ez := Z.min ea eb).
  destruct (shl_align_spec ma ea ez (Z.le_min_l _ _)) as [_ HA].
  destruct (shl_align_spec mb eb ez (Z.le_min_r _ _)) as [_ HB].
  assert (RA : sf_real (S754_finite sa ma ea) =
               sgn sa * IZR (Z.pos (fst (shl_align ma ea ez))) * bpow ez).
  { cbn [sf_real]. rewrite Rmult_assoc, <- (IZR_shl_align ma ea ez) by lia. ring. }
  assert (RB : sf_real (S754_finite sb mb eb) =
               sgn sb * IZR (Z.pos (fst (shl_align mb eb ez))) * bpow ez).
  { cbn [sf_real]. rewrite Rmult_assoc, <- (IZR_shl_align mb eb ez) by lia. ring. }
  change (c_fmod (S754_finite sa ma ea) (S754_finite sb mb eb)) with
    (binary_normalize prec emax
       (cond_Zopp sa (Z.rem (Z.pos (fst (shl_align ma ea ez)))
                            (Z.pos (fst (shl_align mb eb ez))))) ez sa).
  set (A := Z.pos (fst (shl_align ma ea ez))) in *.
  set (B := Z.pos (fst (shl_align mb eb ez))) in *.
  assert (HA0 : (0 < A)%Z) by (unfold A; lia). assert (HB0 : (0 < B)%Z) by (unfold B; lia).
  pose proof (Z.quot_rem' A B) as QR.
  set (Q := Z.quot A B) in *. set (R := Z.rem A B) in *.
  assert (HR : (0 <= R < B)%Z) by (apply Z.rem_bound_pos; lia).
  assert (HRA : (R <= A)%Z) by (apply Z.rem_le; lia).
  assert (HR53 : (R < 2 ^ 53)%Z).
  { destruct (Z.min_spec ea eb) as [[Hl Hm]|[Hl Hm]]; fold ez in Hm.
    - rewrite Hm, Z.sub_diag, Z.mul_1_r in HA. lia.
    - rewrite Hm, Z.sub_diag, Z.mul_1_r in HB. lia. }
  assert (Hez : (-1074 <= ez <= 971)%Z) by lia.
  assert (EA : IZR A = IZR B * IZR Q + IZR R)
    by (rewrite <- mult_IZR, <- plus_IZR; f_equal; lia).
  assert (Hu := bpow_pos ez).
  assert (Rb : Rabs (sf_real (S754_finite sb mb eb)) = IZR B * bpow ez).
  { rewrite RB, !Rmult_assoc, sgn_abs_mul, Rabs_pos_eq; [reflexivity|].
    apply Rmult_le_pos; [apply IZR_le; lia | lra]. }
  rewrite Rb.
  assert (IRB : IZR R < IZR B) by (apply IZR_lt; lia).
  assert (IR0 : 0 <= IZR R) by (apply IZR_le; lia).
  destruct (Z.eq_dec R 0) as [R0|Rp].
  - (* exact division: the result is a zero *)
    replace (cond_Zopp sa R) with 0%Z by (rewrite R0; destruct sa; reflexivity).
    cbn [binary_normalize].
    change (py_eq (S754_zero sa) fzero) with true. cbv beta iota.
    exists (copysign_zero (S754_finite sb mb eb)), (if Bool.eqb sa sb then Q else - Q)%Z.
    assert (E0 : sf_real (S754_finite sa ma ea) -
                 IZR (if Bool.eqb sa sb then Q else - Q) * sf_real (S754_finite sb mb eb) = 0).
    { rewrite RA, RB, EA, R0. destruct sa, sb; cbn [Bool.eqb sgn]; rewrite ?opp_IZR; ring. }
    rewrite E0. cbn [sf_real copysign_zero sf_is_finite]. rewrite Rminus_0_r, Rabs_R0.
    split; [reflexivity|]. split; [reflexivity|]. split; [|lra].
    apply Rmult_lt_0_compat; [apply IZR_lt; lia | exact Hu].
  - (* the remainder of fmod is exact *)
    destruct R as [|p|p] eqn:ER; try lia.
    destruct (binary_round_exact sa p ez HR53 Hez) as (m' & e' & Em & Hle & Hm').
    assert (Rm : sf_real (S754_finite sa m' e') = sgn sa * IZR (Z.pos p) * bpow ez).
    { cbn [sf_real]. rewrite Rmult_assoc, Hm', mult_IZR, <- bpow_IZR by lia.
      rewrite Rmult_assoc, <- bpow_plus. replace (ez - e' + e')%Z with ez by lia. ring. }
    assert (Xm : exp_in_range (S754_finite sa m' e')).
    { rewrite <- Em. apply binary_round_exp. lia. }
    assert (Fm : binary_normalize prec emax (cond_Zopp sa (Z.pos p)) ez sa =
                 S754_finite sa m' e') by (rewrite <- Em; destruct sa; reflexivity).
    rewrite Fm.
    assert (Lt : forall s m e, py_lt (S754_finite s m e) fzero = s) by (intros [] ? ?; reflexivity).
    assert (Nz : forall s m e, py_eq (S754_finite s m e) fzero = false)
      by (intros [] ? ?; reflexivity).
    rewrite !Lt, Nz. cbv beta iota. rewrite <- ER in *.
    destruct (Bool.bool_dec sa sb) as [<-|Ns].
    + (* same signs: the remainder of fmod is returned *)
      rewrite xorb_nilpotent.
      exists (S754_finite sa m' e'), Q.
      assert (E1 : sf_real (S754_finite sa ma ea) - IZR Q * sf_real (S754_finite sa mb eb) =
                   sgn sa * IZR R * bpow ez).
      { rewrite RA, RB, EA. ring. }
      rewrite E1, Rm, ER, Rminus_diag, Rabs_R0.
      split; [reflexivity|]. split; [reflexivity|]. split.
      * rewrite !Rmult_assoc, sgn_abs_mul, <- ER, Rabs_pos_eq by nra.
        apply Rmult_lt_compat_r; lra.
      * apply Rmult_le_pos; [lra | apply Rabs_pos].
    + (* opposite signs: the divisor is added to it *)
      replace (xorb sb sa) with true
        by (destruct sa, sb; try reflexivity; exfalso; apply Ns; reflexivity).
      exists (SF64add (S754_finite sa m' e') (S754_finite sb mb eb)), (- (Q + 1))%Z.
      assert (Hs : sgn sb = - sgn sa)
        by (destruct sa, sb; try (exfalso; apply Ns; reflexivity); cbn [sgn]; ring).
      assert (E1 : sf_real (S754_finite sa ma ea) -
                   IZR (- (Q + 1)) * sf_real (S754_finite sb mb eb) =
                   sf_real (S754_finite sa m' e') + sf_real (S754_finite sb mb eb)).
      { rewrite RA, RB, Rm, EA, Hs, opp_IZR, plus_IZR. ring. }
      assert (Sm : Rabs (sf_real (S754_finite sa m' e') + sf_real (S754_finite sb mb eb)) <
                   IZR B * bpow ez).
      { rewrite Rm, RB, Hs.
        replace (sgn sa * IZR R * bpow ez + - sgn sa * IZR B * bpow ez) with
          (sgn sa * ((IZR R - IZR B) * bpow ez)) by ring.
        rewrite sgn_abs_mul, Rabs_left by nra. assert (0 < IZR R) by (apply IZR_lt; lia).
        nra. }
      rewrite E1.
      destruct (add_error_ov (S754_finite sa m' e') (S754_finite sb mb eb) Xm
                  (valid_exp_in_range _ Vb) eq_refl eq_refl) as [[Fr Er]|[_ Ov]].
      * split; [reflexivity|]. split; [exact Fr|]. split; [exact Sm | exact Er].
      * exfalso. pose proof (valid_below_overflow _ Vb) as Vo. rewrite Rb in Vo. lra.
Qed.

Lemma modulo_remainder_witness :
  exists r n, modulo (lit (-7)) (lit 2) = Ok r /\ sf_is_finite r = true /\
    Rabs (sf_real (lit (-7)) - IZR n * sf_real (lit 2)) < Rabs (sf_real (lit 2)) /\
    Rabs (sf_real r - (sf_real (lit (-7)) - IZR n * sf_real (lit 2))) <=
      bpow (-53) * Rabs (sf_real (lit (-7)) - IZR n * sf_real (lit 2)).
Proof. apply modulo_remainder; vm_compute; reflexivity. Defined.

Lemma binary_round_opp (s : bool) (p : positive) (e : Z) :
  binary_round prec emax (negb s) p e = SFopp (binary_round prec emax s p e).
Proof.
  unfold binary_round. destruct (shl_align _ _ _) as [mz ez]. apply binary_round_aux_opp.
Qed.

Lemma binary_normalize_opp (M e : Z) :
  M <> 0%Z ->
  binary_normalize prec emax (- M) e false = SFopp (binary_normalize prec emax M e false).
Proof.
  intros H. destruct M as [|p|p]; [contradiction| |]; cbn [Z.opp binary_normalize].
  - apply (binary_round_opp false).
  - apply (binary_round_opp true).
Qed.

(** X15: [subtract] is antisymmetric: [subtract(a, b)] is [-subtract(b, a)]
    for all floats, except when both differences are [+0.0] (as for finite
    [a = b]). *)
Theorem subtract_antisymmetric (a b : pyfloat) :
  subtract a b = SFopp (subtract b a) \/ (subtract a b = fzero /\ subtract b a = fzero).
Proof.
  unfold subtract, SF64sub, SFsub.
  destruct a as [[]|[]| |sa ma ea], b as [[]|[]| |sb mb eb];
    try (left; reflexivity); try (right; split; reflexivity);
    try (left; cbn [SFopp negb]; rewrite ?Bool.negb_involutive; reflexivity).
  intdef_arith. rewrite (Z.min_comm eb ea). set (ez := Z.min ea eb).
  set (A := cond_Zopp sa (Z.pos (fst (shl_align ma ea ez)))).
  set (B := cond_Zopp sb (Z.pos (fst (shl_align mb eb ez)))).
  destruct (Z.eq_dec (A - B) 0) as [E|E].
  - right. replace (B - A)%Z with 0%Z by lia. rewrite E. split; reflexivity.
  - left. replace (B - A)%Z with (- (A - B))%Z by lia.
    rewrite binary_normalize_opp by exact E.
    destruct (binary_normalize _ _ _ _ _); cbn [SFopp]; rewrite ?Bool.negb_involutive; reflexivity.
Qed.

(** [binary_normalize] is exact on a mantissa of at most 53 bits. *)
Lemma binary_normalize_exact (M ez : Z) (sz : bool) :
  (Z.abs M < 2 ^ 53)%Z -> (-1074 <= ez <= 971)%Z ->
  sf_is_finite (binary_normalize prec emax M ez sz) = true /\
  sf_real (binary_normalize prec emax M ez sz) = IZR M * bpow ez.
Proof.
  intros HM Hez. destruct M as [|p|p]; cbn [binary_normalize].
  - split; [reflexivity|]. cbn [sf_real]. ring.
  - destruct (binary_round_exact false p ez ltac:(lia) Hez) as (m' & e' & Em & Hle & Hm').
    rewrite Em. split; [reflexivity|]. cbn [sf_real sgn].
    rewrite Rmult_1_l, Hm', mult_IZR, <- bpow_IZR by lia.
    rewrite Rmult_assoc, <- bpow_plus. replace (ez - e' + e')%Z with ez by lia. reflexivity.
  - destruct (binary_round_exact true p ez ltac:(lia) Hez) as (m' & e' & Em & Hle & Hm').
    rewrite Em. split; [reflexivity|]. cbn [sf_real sgn].
    rewrite Rmult_assoc, Hm', mult_IZR, <- bpow_IZR by lia.
    rewrite Rmult_assoc, <- bpow_plus. replace (ez - e' + e')%Z with ez by lia.
    change (IZR (Z.neg p)) with (IZR (- Z.pos p)). rewrite opp_IZR. ring.
Qed.

(** X16: Sterbenz's lemma for [subtract]: when [b / 2 <= a <= 2 * b], the
    difference [subtract(a, b)] of two finite floats is exact. *)
Theorem subtract_exact_sterbenz (a b : pyfloat) :
  sf_valid a = true -> sf_valid b = true ->
  sf_is_finite a = true -> sf_is_finite b = true ->
  sf_real b / 2 <= sf_real a <= 2 * sf_real b ->
  sf_is_finite (subtract a b) = true /\ sf_real (subtract a b) = sf_real a - sf_real b.
Proof.
  intros Va Vb Fa Fb [H1 H2].
  assert (Pos : forall s m e, sf_real (S754_finite s m e) = sgn s * (IZR (Z.pos m) * bpow e) /\
                              0 < IZR (Z.pos m) * bpow e).
  { intros s m e. cbn [sf_real]. split; [ring|].
    apply Rmult_lt_0_compat; [apply IZR_lt; lia | apply bpow_pos]. }
  unfold subtract, SF64sub, SFsub.
  destruct a as [sa|sa| |sa ma ea]; try discriminate;
  destruct b as [sb|sb| |sb mb eb]; try discriminate.
  - destruct sa, sb; split; try reflexivity; cbn [sf_real]; ring.
  - exfalso. destruct (Pos sb mb eb) as [E P].
    rewrite E in H1, H2. cbn [sf_real] in H1, H2. destruct sb; cbn [sgn] in H1, H2; lra.
  - exfalso. destruct (Pos sa ma ea) as [E P].
    rewrite E in H1, H2. cbn [sf_real] in H1, H2. destruct sa; cbn [sgn] in H1, H2; lra.
  - destruct (Pos sa ma ea) as [Ea Pa], (Pos sb mb eb) as [Eb Pb].
    assert (Hs : sa = false /\ sb = false).
    { rewrite Ea, Eb in H1, H2. destruct sa, sb; cbn [sgn] in H1, H2; split; auto; lra. }
    destruct Hs as [-> ->]. cbn [cond_Zopp]. intdef_arith.
    destruct (valid_finite_bounds _ _ _ Va) as [Hma Hea].
    destruct (valid_finite_bounds _ _ _ Vb) as [Hmb Heb].
    set (ez := Z.min ea eb).
    assert (Hez : (-1074 <= ez <= 971)%Z) by lia.
    assert (RA := IZR_shl_align ma ea ez (Z.le_min_l _ _)).
    assert (RB := IZR_shl_align mb eb ez (Z.le_min_r _ _)).
    destruct (shl_align_spec ma ea ez (Z.le_min_l _ _)) as [_ HA].
    destruct (shl_align_spec mb eb ez (Z.le_min_r _ _)) as [_ HB].
    set (A := Z.pos (fst (shl_align ma ea ez))) in *.
    set (B := Z.pos (fst (shl_align mb eb ez))) in *.
    assert (Hu := bpow_pos ez).
    rewrite Ea, Eb in H1, H2. cbn [sgn] in H1, H2. rewrite Rmult_1_l, <- RA, <- RB in H1, H2.
    assert (L1 : (B <= 2 * A)%Z).
    { apply le_IZR. rewrite mult_IZR. apply (Rmult_le_reg_r (bpow ez)); [exact Hu|]. lra. }
    assert (L2 : (A <= 2 * B)%Z).
    { apply le_IZR. rewrite mult_IZR. apply (Rmult_le_reg_r (bpow ez)); [exact Hu|]. lra. }
    assert (HM : (Z.abs (A - B) < 2 ^ 53)%Z).
    { destruct (Z.min_spec ea eb) as [[Hl Hm]|[Hl Hm]]; fold ez in Hm.
      - rewrite Hm, Z.sub_diag, Z.mul_1_r in HA. unfold A in *. lia.
      - rewrite Hm, Z.sub_diag, Z.mul_1_r in HB. unfold B in *. lia. }
    destruct (binary_normalize_exact (A - B) ez false HM Hez) as [F E].
    split; [exact F|]. rewrite E, Ea, Eb, minus_IZR, <- RA, <- RB. cbn [sgn]. ring.
Qed.

Lemma subtract_exact_sterbenz_witness :
  sf_is_finite (subtract (lit 3) (lit 2)) = true /\
  sf_real (subtract (lit 3) (lit 2)) = sf_real (lit 3) - sf_real (lit 2).
Proof.
  apply subtract_exact_sterbenz; try (vm_compute; reflexivity).
  vm_compute sf_real. unfold bpow. simpl. lra.
Defined.

End CalculatorExtras.
